(** * json-mini: the tokenizer, the parser and the renderer

    A shallow embedding of [include/json/lexer.hpp] and
    [include/json/parser.hpp].  The C++ code is index based (a cursor into a
    [std::string], a cursor into a [std::vector<JsonToken>] that is erased
    from in place); the embedding keeps the cursors and the erasures as they
    are.  Loops carry a fuel argument for termination only; the entry points
    supply enough of it, which is proved below. *)

From Stdlib Require Import Bool Arith ZArith Lia List String Ascii.
From Stdlib Require Import DecimalString DecimalPos.
Import ListNotations.
Local Open Scope string_scope.
Local Open Scope list_scope.
Local Open Scope nat_scope.

(** ** Characters the code names *)

Definition dquote : ascii := "034"%char.
Definition newline : ascii := "010"%char.
Definition tab : ascii := "009"%char.
Definition carriage_return : ascii := "013"%char.

(** A one-character [std::string]. *)
Definition str1 (c : ascii) : string := String c EmptyString.

(** [quoted s] is [s] between two double quotes. *)
Definition quoted (s : string) : string :=
  String dquote (s ++ str1 dquote)%string.

(** ** lexer.hpp *)

Module JsonLexer.

(** [enum class JsonTokenType] *)
Inductive JsonTokenType : Set :=
| TOK_LEFT_BRACE
| TOK_RIGHT_BRACE
| TOK_COLON
| TOK_COMMA
| TOK_STR_VAL
| TOK_NUMBER.

(** [struct JsonToken] *)
Record JsonToken : Set := mkToken { type : JsonTokenType; content : string }.

Definition JsonTokenType_eqb (a b : JsonTokenType) : bool :=
  match a, b with
  | TOK_LEFT_BRACE, TOK_LEFT_BRACE
  | TOK_RIGHT_BRACE, TOK_RIGHT_BRACE
  | TOK_COLON, TOK_COLON
  | TOK_COMMA, TOK_COMMA
  | TOK_STR_VAL, TOK_STR_VAL
  | TOK_NUMBER, TOK_NUMBER => true
  | _, _ => false
  end.

(** The three ways [scan] gives up.  The code has no error type: it prints a
    line on [std::cout] and returns the empty vector.  Each constructor stands
    for one of the three printed lines:
    - [UnexpectedCharacter c]: "Error: Unknown character in json string: 'c'"
    - [TruncatedNumber]: "Error: Json file ended with a number, not with a '}'"
    - [UnterminatedString]: "Error: Unterminated string value at the end of
      the json string". *)
Inductive LexError : Set :=
| UnexpectedCharacter (c : ascii)
| TruncatedNumber
| UnterminatedString.

(** What one call of [scan] does: the vector it returns when it runs to the end
    of the loop, or the line it prints before [return {}]. *)
Inductive ScanResult : Set :=
| Tokens (tokens : list JsonToken)
| LexFail (e : LexError).

(** The vector the caller holds after the call. *)
Definition returned_tokens (r : ScanResult) : list JsonToken :=
  match r with
  | Tokens tokens => tokens
  | LexFail _ => []
  end.

(** [is_digit]: [c >= '0' && c <= '9']. *)
Definition is_digit (c : ascii) : bool :=
  (Ascii.leb "0" c && Ascii.leb c "9")%bool.

Definition not_quote (c : ascii) : bool := negb (Ascii.eqb c dquote).

(** The two inner loops
    [while (json_string.begin() + end != json_string.end() && p(json_string[end])) end++;]
    with [p] the digit test (line 63) or the not-a-quote test (line 104).
    [get end_ s = None] is [begin() + end == end()]. *)
Fixpoint advance_while (p : ascii -> bool) (json_string : string)
         (fuel end_ : nat) : nat :=
  match fuel with
  | 0 => end_
  | S fuel' =>
      match get end_ json_string with
      | Some c => if p c then advance_while p json_string fuel' (S end_) else end_
      | None => end_
      end
  end.

(** [json_string.substr(start, end - start)] *)
Definition substr (json_string : string) (start end_ : nat) : string :=
  substring start (end_ - start) json_string.

Definition is_space (c : ascii) : bool :=
  (Ascii.eqb c newline || Ascii.eqb c tab || Ascii.eqb c carriage_return
   || Ascii.eqb c " ")%bool.

(** The [for (size_t end = 0; end < json_string.length(); end++)] loop of
    [scan], one iteration per unit of fuel; every branch that breaks out of
    the [switch] is followed by the [end++] of the loop header.  [None] is
    fuel exhaustion, which [scan] never meets. *)
Fixpoint scan_loop (fuel : nat) (json_string : string) (start end_ : nat)
         (tokens : list JsonToken) : option ScanResult :=
  match get end_ json_string with
  | None => Some (Tokens tokens)
  | Some c =>
      match fuel with
      | 0 => None
      | S fuel' =>
          if is_space c then
            scan_loop fuel' json_string end_ (S end_) tokens
          else if Ascii.eqb c "{" then
            scan_loop fuel' json_string end_ (S end_)
                      (tokens ++ [mkToken TOK_LEFT_BRACE "{"])
          else if Ascii.eqb c "}" then
            scan_loop fuel' json_string end_ (S end_)
                      (tokens ++ [mkToken TOK_RIGHT_BRACE "}"])
          else if Ascii.eqb c ":" then
            scan_loop fuel' json_string end_ (S end_)
                      (tokens ++ [mkToken TOK_COLON ":"])
          else if Ascii.eqb c "," then
            scan_loop fuel' json_string end_ (S end_)
                      (tokens ++ [mkToken TOK_COMMA ","])
          else if Ascii.eqb c dquote then
            let end1 := S end_ in
            let start1 := end1 in
            let end2 :=
              advance_while not_quote json_string
                            (String.length json_string - end1) end1 in
            match get end2 json_string with
            | None => Some (LexFail UnterminatedString)
            | Some _ =>
                scan_loop fuel' json_string end2 (S end2)
                          (tokens ++ [mkToken TOK_STR_VAL
                                              (substr json_string start1 end2)])
            end
          else if is_digit c then
            let end1 := S end_ in
            let end2 :=
              advance_while is_digit json_string
                            (String.length json_string - end1) end1 in
            match get end2 json_string with
            | None => Some (LexFail TruncatedNumber)
            | Some _ =>
                scan_loop fuel' json_string end2 (S end2)
                          (tokens ++ [mkToken TOK_NUMBER
                                              (substr json_string start end2)])
            end
          else Some (LexFail (UnexpectedCharacter c))
      end
  end.

(** [scan] on the contents of the file: [start = 0], [end = 0], no tokens.
    Every iteration moves [end] forward, so [length json_string] iterations
    are enough. *)
Definition scan (json_string : string) : option ScanResult :=
  scan_loop (String.length json_string) json_string 0 0 [].

End JsonLexer.

Import JsonLexer.



(** ** parser.hpp *)

Module JsonParser.

(** [JsonObject] and its three subclasses [JsonGroup], [JsonString] and
    [JsonNumber]; the [dynamic_cast]s of the code are pattern matching here.
    [number] is a C++ [int]. *)
#[local] Unset Elimination Schemes.
Inductive JsonObject : Set :=
| JsonGroup (name : string) (fields : list JsonObject)
| JsonString (name : string) (value : string)
| JsonNumber (name : string) (number : Z).
#[local] Set Elimination Schemes.

(** The name literal compared against in [parse] and [to_string]. *)
Definition ROOT : string := "__ROOT__".

(** The two [return std::nullopt] of [parse] that start a failure, by the
    line printed before them: "Error: expected ':' after name" and "Detected
    double naming in json group".  The third, "Failed to parse group object",
    only hands a nested failure on. *)
Inductive ParseError : Set :=
| ExpectedColon
| DoubleNaming.

(** Ways a call leaves the language: [tokens[i]] with [i >= tokens.size()],
    a failed [assert], and the two exceptions of [std::stoi], which nothing
    catches. *)
Inductive Fault : Set :=
| OutOfBoundsRead
| AssertionFailed
| StoiInvalidArgument
| StoiOutOfRange.

Inductive Outcome (A : Type) : Type :=
| Returned (a : A)
| Nullopt (e : ParseError)
| Crash (f : Fault)
| OutOfFuel.

Arguments Returned {A} a.
Arguments Nullopt {A} e.
Arguments Crash {A} f.
Arguments OutOfFuel {A}.

Definition bind {A B : Type} (m : Outcome A) (k : A -> Outcome B) : Outcome B :=
  match m with
  | Returned a => k a
  | Nullopt e => Nullopt e
  | Crash f => Crash f
  | OutOfFuel => OutOfFuel
  end.

Notation "x <- m ;; k" := (bind m (fun x => k))
  (at level 61, m at next level, right associativity).

(** [tokens[i]] of a [std::vector]: no bounds check in the code. *)
Definition tok_at (tokens : list JsonToken) (i : nat) : Outcome JsonToken :=
  match nth_error tokens i with
  | Some tok => Returned tok
  | None => Crash OutOfBoundsRead
  end.

(** [std::stoi] on a token's content: leading white space ([isspace]), an
    optional sign, then the longest run of digits; [std::invalid_argument]
    when there is no digit, [std::out_of_range] when the value is no [int]. *)
Definition is_cspace (c : ascii) : bool :=
  (Ascii.eqb c " " || Ascii.eqb c tab || Ascii.eqb c newline
   || Ascii.eqb c "011" || Ascii.eqb c "012" || Ascii.eqb c carriage_return)%bool.

Fixpoint skip_cspace (s : string) : string :=
  match s with
  | String c rest => if is_cspace c then skip_cspace rest else s
  | EmptyString => s
  end.

Definition digit_value (c : ascii) : Z := Z.of_nat (nat_of_ascii c) - 48.

Fixpoint digits_value (s : string) (acc : Z) : Z :=
  match s with
  | String c rest =>
      if is_digit c then digits_value rest (10 * acc + digit_value c)%Z else acc
  | EmptyString => acc
  end.

Definition INT_MAX : Z := 2147483647.
Definition INT_MIN : Z := -2147483648.

Definition stoi_unsigned (negative : bool) (s : string) : Outcome Z :=
  match s with
  | String c _ =>
      if is_digit c then
        let v := digits_value s 0 in
        let v := if negative then (- v)%Z else v in
        if ((INT_MIN <=? v) && (v <=? INT_MAX))%Z%bool then Returned v
        else Crash StoiOutOfRange
      else Crash StoiInvalidArgument
  | EmptyString => Crash StoiInvalidArgument
  end.

Definition stoi (str : string) : Outcome Z :=
  match skip_cspace str with
  | String "-" rest => stoi_unsigned true rest
  | String "+" rest => stoi_unsigned false rest
  | s => stoi_unsigned false s
  end.

(** [extract_from_to]: the extracted tokens [[from, to)] and the vector that
    is left after [tokens.erase]. *)
Definition extract_from_to (tokens : list JsonToken) (from to : nat)
  : Outcome (list JsonToken * list JsonToken) :=
  if to <? from then Crash AssertionFailed
  else if List.length tokens <? to then Crash AssertionFailed
  else if to =? from then Returned ([], tokens)
  else Returned (firstn (to - from) (skipn from tokens),
                 firstn from tokens ++ skipn to tokens).

(** The depth-counting loop (lines 109-116 and 145-152)
    [while (end_idx < tokens.size() && brace_depth > 0)]; returns [end_idx]
    and [brace_depth] as the loop leaves them.  [brace_depth] is an [int]
    that never leaves [0 .. tokens.size()]. *)
Fixpoint match_brace (fuel : nat) (tokens : list JsonToken) (end_idx : nat)
         (brace_depth : Z) : nat * Z :=
  match fuel with
  | 0 => (end_idx, brace_depth)
  | S fuel' =>
      match nth_error tokens end_idx with
      | None => (end_idx, brace_depth)
      | Some tok =>
          if (0 <? brace_depth)%Z then
            let brace_depth' :=
              match type tok with
              | TOK_LEFT_BRACE => (brace_depth + 1)%Z
              | TOK_RIGHT_BRACE => (brace_depth - 1)%Z
              | _ => brace_depth
              end in
            match_brace fuel' tokens (S end_idx) brace_depth'
          else (end_idx, brace_depth)
      end
  end.

(** [end_idx] after the loop started at [i] with depth 1. *)
Definition closing_idx (tokens : list JsonToken) (i : nat) : nat :=
  fst (match_brace (List.length tokens - i) tokens i 1).

(** The block that [parse] has twice (lines 106-120 and 142-156), entered
    with [i] already past the opening brace: run the depth-counting loop,
    then [break] out of the [for] loop when [i >= tokens.size()] ([None]),
    else [extract_from_to(tokens, i, end_idx - 1)]: the extracted
    [group_tokens] and the vector that is left ([Some]). *)
Definition group_span (tokens : list JsonToken) (i : nat)
  : Outcome (option (list JsonToken * list JsonToken)) :=
  let end_idx := closing_idx tokens i in
  if List.length tokens <=? i then Returned None
  else
    ex <- extract_from_to tokens i (end_idx - 1) ;;
    Returned (Some ex).

(** Lines 176-183: the end of [parse]. *)
Definition root_unwrap (objects : list JsonObject) : JsonObject :=
  match objects with
  | [JsonGroup name fields] =>
      if String.eqb name ROOT then JsonGroup name fields
      else JsonGroup ROOT objects
  | _ => JsonGroup ROOT objects
  end.

Section Loop.

(** The recursive call [parse(group_tokens)]. *)
Variable parse_rec : list JsonToken -> Outcome JsonObject.

(** The [for (size_t i = 0; i < tokens.size(); i++)] loop of [parse] from
    position [i] on, with the vector and the objects built so far; returns
    [objects] as the loop leaves them.  After every branch that does not
    return comes the [i++] of the loop header. *)
Fixpoint parse_loop (fuel : nat) (tokens : list JsonToken) (i : nat)
         (objects : list JsonObject) : Outcome (list JsonObject) :=
  if List.length tokens <=? i then Returned objects
  else
    match fuel with
    | 0 => OutOfFuel
    | S fuel' =>
        tok <- tok_at tokens i ;;
        match type tok with
        | TOK_LEFT_BRACE =>
            let i1 := S i in
            span <- group_span tokens i1 ;;
            match span with
            | None => Returned objects
            | Some (group_tokens, tokens1) =>
                group_object <- parse_rec group_tokens ;;
                parse_loop fuel' tokens1 (S i1) (objects ++ [group_object])
            end
        | TOK_STR_VAL =>
            let identifier := content tok in
            let i1 := S i in
            tok1 <- tok_at tokens i1 ;;
            if negb (JsonTokenType_eqb (type tok1) TOK_COLON)
            then Nullopt ExpectedColon
            else
              let i2 := S i1 in
              tok2 <- tok_at tokens i2 ;;
              match type tok2 with
              | TOK_NUMBER =>
                  number <- stoi (content tok2) ;;
                  parse_loop fuel' tokens (S i2)
                             (objects ++ [JsonNumber identifier number])
              | TOK_STR_VAL =>
                  parse_loop fuel' tokens (S i2)
                             (objects ++ [JsonString identifier (content tok2)])
              | TOK_LEFT_BRACE =>
                  let i3 := S i2 in
                  span <- group_span tokens i3 ;;
                  match span with
                  | None => Returned objects
                  | Some (group_tokens, tokens1) =>
                      group_object <- parse_rec group_tokens ;;
                      match group_object with
                      | JsonGroup name fields =>
                          if negb (String.eqb name ROOT)
                          then Nullopt DoubleNaming
                          else parse_loop fuel' tokens1 (S i3)
                                          (objects ++ [JsonGroup identifier fields])
                      | other =>
                          parse_loop fuel' tokens1 (S i3) (objects ++ [other])
                      end
                  end
              | _ => Crash AssertionFailed
              end
        | _ => parse_loop fuel' tokens (S i) objects
        end
    end.

End Loop.

(** [parse], with [fuel] bounding the depth of the recursion. *)
Fixpoint parse_fuel (fuel : nat) (tokens : list JsonToken) : Outcome JsonObject :=
  match fuel with
  | 0 => OutOfFuel
  | S fuel' =>
      objects <- parse_loop (parse_fuel fuel') (List.length tokens) tokens 0 [] ;;
      Returned (root_unwrap objects)
  end.

(** Every recursive call is on a strictly shorter vector. *)
Definition parse (tokens : list JsonToken) : Outcome JsonObject :=
  parse_fuel (S (List.length tokens)) tokens.

(** [std::string(indent_lvl, '\t')] *)
Fixpoint tabs (indent_lvl : nat) : string :=
  match indent_lvl with
  | 0 => EmptyString
  | S n => String tab (tabs n)
  end.

(** [ss << number->number] for an [int]. *)
Definition print_int (number : Z) : string :=
  NilZero.string_of_int (Z.to_int number).

(** The loop over [group->fields] of [to_string] (lines 201-209):
    [render_field] is the recursive call of [to_string] on the field under
    the iterator, at [indent_lvl + 1],
    [first] tells whether [it == group->fields.begin()], and [rest] is empty
    when [it == std::prev(group->fields.end())]. *)
Fixpoint fields_loop (render_field : JsonObject -> string)
         (it : list JsonObject) (first : bool) : string :=
  match it with
  | [] => EmptyString
  | field :: rest =>
      ((if first then EmptyString else "," ++ str1 newline)
       ++ render_field field
       ++ (match rest with [] => str1 newline | _ => EmptyString end)
       ++ fields_loop render_field rest false)%string
  end.

(** [to_string] *)
Fixpoint to_string (object : JsonObject) (indent_lvl : nat) : string :=
  match object with
  | JsonGroup name fields =>
      ((if negb (String.eqb name ROOT)
        then tabs indent_lvl ++ str1 dquote ++ name ++ str1 dquote ++ ": "
        else tabs indent_lvl)
       ++ "{" ++ str1 newline
       ++ fields_loop (fun field => to_string field (S indent_lvl)) fields true
       ++ tabs indent_lvl ++ "}")%string
  | JsonString name value =>
      (tabs indent_lvl ++ str1 dquote ++ name ++ str1 dquote ++ ": "
       ++ str1 dquote ++ value ++ str1 dquote)%string
  | JsonNumber name number =>
      (tabs indent_lvl ++ str1 dquote ++ name ++ str1 dquote ++ ": "
       ++ print_int number)%string
  end.

End JsonParser.

Import JsonParser.



(** ** The renderer as the specification words it

    Modelled on the specification's description of the renderer, to be
    compared with [to_string], which is translated from the code. *)

Module RenderSpec.

(** One tab character per nesting level. *)
Definition indentation (level : nat) : string :=
  string_of_list_ascii (repeat tab level).

(** The group is the synthetic root. *)
Definition is_synthetic_root (name : string) : bool := String.eqb name ROOT.

(** Each rendering on its own line, a comma between siblings. *)
Fixpoint child_lines (renderings : list string) : string :=
  match renderings with
  | [] => EmptyString
  | [r] => (r ++ str1 newline)%string
  | r :: rest => (r ++ "," ++ str1 newline ++ child_lines rest)%string
  end.

Fixpoint render (node : JsonObject) (level : nat) : string :=
  match node with
  | JsonGroup name children =>
      (indentation level
       ++ (if is_synthetic_root name then EmptyString else quoted name ++ ": ")
       ++ "{" ++ str1 newline
       ++ child_lines (map (fun child => render child (S level)) children)
       ++ indentation level ++ "}")%string
  | JsonString name value =>
      (indentation level ++ quoted name ++ ": " ++ quoted value)%string
  | JsonNumber name value =>
      (indentation level ++ quoted name ++ ": "
       ++ NilZero.string_of_int (Z.to_int value))%string
  end.

End RenderSpec.

(** ** Vocabulary of the statements *)

Definition LB := mkToken TOK_LEFT_BRACE "{".
Definition RB := mkToken TOK_RIGHT_BRACE "}".
Definition COLON := mkToken TOK_COLON ":".
Definition COMMA := mkToken TOK_COMMA ",".
Definition STR (s : string) := mkToken TOK_STR_VAL s.
Definition NUM (s : string) := mkToken TOK_NUMBER s.

(** The token kinds neither production of [parse] starts with. *)
Definition is_stray (t : JsonTokenType) : bool :=
  match t with
  | TOK_COMMA | TOK_RIGHT_BRACE | TOK_COLON | TOK_NUMBER => true
  | TOK_LEFT_BRACE | TOK_STR_VAL => false
  end.

(** [encloses d l]: read from depth [d], the tokens [l] never bring the depth
    counter to 0 and leave it at 1, so that a closing brace right behind [l]
    is the first token that brings it to 0.  For [d = 1], [l] is what stands
    between an opening brace and the brace that closes it. *)
Fixpoint encloses (d : Z) (l : list JsonToken) : bool :=
  match l with
  | [] => (d =? 1)%Z
  | tok :: rest =>
      ((0 <? d)%Z
       && encloses (match type tok with
                    | TOK_LEFT_BRACE => d + 1
                    | TOK_RIGHT_BRACE => d - 1
                    | _ => d
                    end)%Z rest)%bool
  end.

(** Every character of [s] passes [p]. *)
Fixpoint all_chars (p : ascii -> bool) (s : string) : bool :=
  match s with
  | EmptyString => true
  | String c rest => (p c && all_chars p rest)%bool
  end.

(** The last character of [s], if any. *)
Fixpoint last_char (s : string) : option ascii :=
  match s with
  | EmptyString => None
  | String c EmptyString => Some c
  | String _ rest => last_char rest
  end.

(** [text] ends in a maximal, non-empty run of digits [run] after [before]. *)
Definition ends_in_digit_run (text before run : string) : Prop :=
  text = (before ++ run)%string
  /\ run <> EmptyString
  /\ all_chars is_digit run = true
  /\ match last_char before with Some c => is_digit c = false | None => True end.

(** The whole pipeline of [main]: scan, parse what [scan] returned, render. *)
Definition scan_parse_render (text : string) : option (Outcome string) :=
  match scan text with
  | Some r =>
      Some (object <- parse (returned_tokens r) ;; Returned (to_string object 0))
  | None => None
  end.

(** The texts of the examples. *)
Definition text_a_1 : string := ("{" ++ quoted "a" ++ ": 1}")%string.
Definition text_a_b_1 : string :=
  ("{" ++ quoted "a" ++ ": {" ++ quoted "b" ++ ": 1}}")%string.
Definition text_a_b_1_unclosed : string :=
  ("{" ++ quoted "a" ++ ": {" ++ quoted "b" ++ ": 1}")%string.
Definition text_unterminated : string :=
  ("{" ++ quoted "a" ++ ": " ++ str1 dquote ++ "unterminated")%string.
Definition text_a_b_c : string :=
  ("{" ++ quoted "a" ++ ": {" ++ quoted "b" ++ ": 1}, " ++ quoted "c" ++ ": {}}")%string.

(** ** Token sequences that spell a tree

    A tree is spelled field by field: a name token, a colon token and the
    value; a group's value is its fields between two brace tokens.  What may
    vary is the text of a number token and whether a comma token follows a
    field that is not the last one. *)

Record Spelling : Type := mkSpelling {
  number_text : Z -> string;
  comma_after : JsonObject -> bool
}.

(** The fields of one group in a row, each with its tokens. *)
Fixpoint join_members (sp : Spelling)
         (members : list (JsonObject * list JsonToken)) : list JsonToken :=
  match members with
  | [] => []
  | [(_, toks)] => toks
  | (object, toks) :: rest =>
      toks ++ (if comma_after sp object then [COMMA] else [])
           ++ join_members sp rest
  end.

Fixpoint member_tokens (sp : Spelling) (object : JsonObject) : list JsonToken :=
  match object with
  | JsonGroup name fields =>
      STR name :: COLON :: LB
          :: join_members sp (map (fun f => (f, member_tokens sp f)) fields)
          ++ [RB]
  | JsonString name value => [STR name; COLON; STR value]
  | JsonNumber name number => [STR name; COLON; NUM (number_text sp number)]
  end.

Definition members_tokens (sp : Spelling) (fields : list JsonObject)
  : list JsonToken :=
  join_members sp (map (fun f => (f, member_tokens sp f)) fields).

(** A whole document: the root's fields between braces. *)
Definition document_tokens (sp : Spelling) (fields : list JsonObject)
  : list JsonToken :=
  LB :: members_tokens sp fields ++ [RB].

(** The spelling with a comma between any two fields and numbers in plain
    decimal. *)
Definition plain_spelling : Spelling := mkSpelling print_int (fun _ => true).

(** No group of the tree bears the root marker as its name, and every number
    is an [int]. *)
Fixpoint parseable (object : JsonObject) : bool :=
  match object with
  | JsonGroup name fields =>
      (negb (String.eqb name ROOT) && forallb parseable fields)%bool
  | JsonString _ _ => true
  | JsonNumber _ number => ((INT_MIN <=? number) && (number <=? INT_MAX))%Z%bool
  end.

(** Tokens that leave the depth counter where it was, wherever they stand. *)
Definition neutral (toks : list JsonToken) : Prop :=
  forall d l, (0 < d)%Z -> encloses d (toks ++ l) = encloses d l.

(** What one iteration of the loop does with the tokens of one field. *)
Definition field_step (sp : Spelling) (object : JsonObject) : Prop :=
  forall (n : nat) (tail : list JsonToken) (objects : list JsonObject),
    parse_loop parse (S n) (member_tokens sp object ++ tail) 0 objects
    = parse_loop parse n tail 0 (objects ++ [object]).

(** What [scan] does with one character that is a token of its own or white
    space: the tokens it appends.  [None] for the characters that start a
    literal, a number or a failure. *)
Definition single_token (c : ascii) : option (list JsonToken) :=
  if is_space c then Some []
  else if Ascii.eqb c "{" then Some [LB]
  else if Ascii.eqb c "}" then Some [RB]
  else if Ascii.eqb c ":" then Some [COLON]
  else if Ascii.eqb c "," then Some [COMMA]
  else None.

(** The spelling of the tokens [scan] returns for a text that [to_string]
    produced: the blank in front of a number is part of the number token,
    and the comma behind a number is stepped over. *)
Definition rendered_spelling : Spelling :=
  mkSpelling (fun number => String " " (print_int number))
             (fun object => match object with
                            | JsonNumber _ _ => false
                            | _ => true
                            end).

(** The trees whose rendering can be read back: no double quote in a name or
    in a value, no group named by the root marker, every number a
    non-negative [int]. *)
Fixpoint printable (object : JsonObject) : bool :=
  match object with
  | JsonGroup name fields =>
      (all_chars not_quote name && negb (String.eqb name ROOT)
       && forallb printable fields)%bool
  | JsonString name value =>
      (all_chars not_quote name && all_chars not_quote value)%bool
  | JsonNumber name number =>
      (all_chars not_quote name && (0 <=? number)%Z && (number <=? INT_MAX)%Z)%bool
  end.

(** What scanning does with the rendering of one field and the separator
    behind it: [more] tells whether another field follows. *)
Definition field_scan (object : JsonObject) : Prop :=
  forall (lvl : nat) (pre : string) (tokens : list JsonToken) (more : bool),
    scan pre = Some (Tokens tokens) ->
    scan (pre ++ to_string object lvl
              ++ (if more then "," else EmptyString) ++ str1 newline)
    = Some (Tokens (tokens ++ member_tokens rendered_spelling object
                           ++ (if (more && comma_after rendered_spelling object)%bool
                               then [COMMA] else []))).

(** [runs_to_end d l]: read from depth [d], the depth counter is positive in
    front of every token of [l], so that the depth-counting loop reads all of
    [l]. *)
Fixpoint runs_to_end (d : Z) (l : list JsonToken) : bool :=
  match l with
  | [] => true
  | tok :: rest =>
      ((0 <? d)%Z
       && runs_to_end (match type tok with
                       | TOK_LEFT_BRACE => d + 1
                       | TOK_RIGHT_BRACE => d - 1
                       | _ => d
                       end)%Z rest)%bool
  end.

(** The shape of the content of a token, kind by kind: the character itself
    for a brace, a colon or a comma; no double quote in a string; for a
    number a digit alone, or any character followed by digits only. *)
Definition token_shape (tok : JsonToken) : bool :=
  match type tok with
  | TOK_LEFT_BRACE => String.eqb (content tok) "{"
  | TOK_RIGHT_BRACE => String.eqb (content tok) "}"
  | TOK_COLON => String.eqb (content tok) ":"
  | TOK_COMMA => String.eqb (content tok) ","
  | TOK_STR_VAL => all_chars not_quote (content tok)
  | TOK_NUMBER =>
      match content tok with
      | EmptyString => false
      | String c EmptyString => is_digit c
      | String _ rest => all_chars is_digit rest
      end
  end.

(** ** main

    [main] from the loaded text on: the exit status, and the text that
    [print_json_object] writes when it comes to that.  What [scan],
    [print_tokens] and [parse] write to [std::cout] on the way is left out,
    and so are the argument check and the path of the file. *)
Definition main (json_string : string) : option (Outcome (Z * option string)) :=
  match scan json_string with
  | None => None
  | Some r =>
      Some (match parse (returned_tokens r) with
            | Returned object => Returned (0%Z, Some (to_string object 0))
            | Nullopt _ => Returned (1%Z, None)
            | Crash f => Crash f
            | OutOfFuel => OutOfFuel
            end)
  end.

(** * Theorems *)

(** ** Strings *)

Lemma append_assoc (a b c : string) : ((a ++ b) ++ c = a ++ (b ++ c))%string.
Proof. induction a as [|x a IH]; simpl; [reflexivity | now rewrite IH]. Qed.

Lemma append_nil_r (a : string) : (a ++ EmptyString)%string = a.
Proof. induction a as [|x a IH]; simpl; [reflexivity | now rewrite IH]. Qed.

Lemma append_length (a b : string) :
  String.length (a ++ b) = String.length a + String.length b.
Proof. induction a as [|x a IH]; simpl; [reflexivity | now rewrite IH]. Qed.

Lemma get_lt (s : string) (n : nat) (c : ascii) :
  get n s = Some c -> n < String.length s.
Proof.
  revert n; induction s as [|x s IH]; intros [|n] H; simpl in *;
    try discriminate; try lia.
  apply IH in H; lia.
Qed.

Lemma get_none (s : string) (n : nat) :
  get n s = None <-> String.length s <= n.
Proof.
  revert n; induction s as [|x s IH]; intros [|n]; simpl; split; intro H;
    try reflexivity; try discriminate; try lia.
  - apply IH in H; lia.
  - apply IH; lia.
Qed.

Lemma get_app_l (a b : string) (n : nat) :
  n < String.length a -> get n (a ++ b) = get n a.
Proof.
  revert n; induction a as [|x a IH]; intros [|n] H; simpl in *;
    try lia; try reflexivity.
  apply IH; lia.
Qed.

Lemma get_app_r (a b : string) (n : nat) :
  get (String.length a + n) (a ++ b) = get n b.
Proof. induction a as [|x a IH]; simpl; [reflexivity | exact IH]. Qed.

Lemma substring_app_l (a b : string) (n m : nat) :
  n + m <= String.length a -> substring n m (a ++ b) = substring n m a.
Proof.
  revert n m; induction a as [|x a IH]; intros n m H; simpl in *.
  - assert (n = 0) by lia; assert (m = 0) by lia; subst.
    destruct b; reflexivity.
  - destruct n as [|n].
    + destruct m as [|m]; [reflexivity|].
      f_equal. apply IH; lia.
    + apply IH; lia.
Qed.

Lemma substring_skip (a b : string) (m : nat) :
  substring (String.length a) m (a ++ b) = substring 0 m b.
Proof. induction a as [|x a IH]; simpl; [reflexivity | exact IH]. Qed.

Lemma substring_all (a b : string) :
  substring 0 (String.length a) (a ++ b) = a.
Proof.
  induction a as [|x a IH]; simpl.
  - destruct b; reflexivity.
  - now rewrite IH.
Qed.

(** ** The tokenizer's loops *)

Lemma advance_while_spec (p : ascii -> bool) (s : string) (fuel e : nat) :
  e <= advance_while p s fuel e
  /\ advance_while p s fuel e <= e + fuel
  /\ (forall j, e <= j < advance_while p s fuel e ->
                exists c, get j s = Some c /\ p c = true)
  /\ (advance_while p s fuel e < e + fuel ->
      forall c, get (advance_while p s fuel e) s = Some c -> p c = false).
Proof.
  revert e; induction fuel as [|fuel IH]; intro e; simpl.
  - split; [lia|]. split; [lia|]. split; intros; lia.
  - destruct (get e s) as [c|] eqn:Hc.
    + destruct (p c) eqn:Hp.
      * destruct (IH (S e)) as (H1 & H2 & H3 & H4).
        split; [lia|]. split; [lia|]. split.
        -- intros j Hj. destruct (Nat.eq_dec j e) as [->|Hne].
           ++ exists c; split; assumption.
           ++ apply H3; lia.
        -- intros Hlt c' Hc'. apply H4; [lia | assumption].
      * split; [lia|]. split; [lia|]. split.
        -- intros j Hj; lia.
        -- intros _ c' Hc'. rewrite Hc in Hc'. now inversion Hc'; subst.
    + split; [lia|]. split; [lia|]. split.
      * intros j Hj; lia.
      * intros _ c' Hc'. rewrite Hc in Hc'. discriminate.
Qed.

Lemma advance_while_stop (p : ascii -> bool) (s : string) (fuel e r : nat) :
  e <= r -> r - e <= fuel ->
  (forall j, e <= j < r -> exists c, get j s = Some c /\ p c = true) ->
  (get r s = None \/ exists c, get r s = Some c /\ p c = false) ->
  advance_while p s fuel e = r.
Proof.
  revert e; induction fuel as [|fuel IH]; intros e Her Hfuel Hrun Hstop; simpl.
  - lia.
  - destruct (Nat.eq_dec e r) as [->|Hne].
    + destruct Hstop as [Hn | (c & Hc & Hp)].
      * now rewrite Hn.
      * now rewrite Hc, Hp.
    + destruct (Hrun e) as (c & Hc & Hp); [lia|].
      rewrite Hc, Hp. apply IH; try lia; try assumption.
      intros j Hj; apply Hrun; lia.
Qed.

Lemma scan_loop_end (fuel : nat) (s : string) (start e : nat)
      (tokens : list JsonToken) :
  get e s = None -> scan_loop fuel s start e tokens = Some (Tokens tokens).
Proof. intro H. destruct fuel; simpl; now rewrite H. Qed.

(** [scan_loop] never runs out of fuel when it has one unit per character
    left. *)
Lemma scan_loop_total (fuel : nat) :
  forall (s : string) (start e : nat) (tokens : list JsonToken),
    String.length s - e <= fuel ->
    exists r, scan_loop fuel s start e tokens = Some r.
Proof.
  induction fuel as [|fuel IH]; intros s start e tokens Hfuel.
  - exists (Tokens tokens). apply scan_loop_end. apply get_none. lia.
  - simpl. destruct (get e s) as [c|] eqn:Hc; [|eauto].
    apply get_lt in Hc.
    repeat match goal with
           | |- exists r, (if ?b then _ else _) = Some r => destruct b
           end;
      try (apply IH; lia); eauto.
    + pose proof (advance_while_spec not_quote s (String.length s - S e) (S e))
        as (Hge & _).
      apply IH; lia.
    + pose proof (advance_while_spec is_digit s (String.length s - S e) (S e))
        as (Hge & _).
      apply IH; lia.
Qed.

Lemma scan_total (s : string) : exists r, scan s = Some r.
Proof. apply scan_loop_total. lia. Qed.

Lemma scan_loop_more_fuel (fuel k : nat) :
  forall (s : string) (start e : nat) (tokens : list JsonToken) (r : ScanResult),
    scan_loop fuel s start e tokens = Some r ->
    scan_loop (fuel + k) s start e tokens = Some r.
Proof.
  induction fuel as [|fuel IH]; intros s start e tokens r H.
  - simpl in H. destruct (get e s) eqn:Hc; [discriminate|].
    rewrite scan_loop_end; assumption.
  - simpl in *. destruct (get e s) as [c|] eqn:Hc; [|assumption].
    repeat match goal with
           | H : (if ?b then _ else _) = Some _ |- _ => destruct b
           end;
      try (apply IH; assumption); assumption.
Qed.

Lemma scan_loop_fuel_irrelevant (f1 f2 : nat) (s : string) (start e : nat)
      (tokens : list JsonToken) :
  String.length s - e <= f1 -> String.length s - e <= f2 ->
  scan_loop f1 s start e tokens = scan_loop f2 s start e tokens.
Proof.
  intros H1 H2.
  destruct (scan_loop_total (String.length s - e) s start e tokens (le_n _))
    as (r & Hr).
  replace f1 with ((String.length s - e) + (f1 - (String.length s - e))) by lia.
  replace f2 with ((String.length s - e) + (f2 - (String.length s - e))) by lia.
  now rewrite !(scan_loop_more_fuel _ _ _ _ _ _ _ Hr).
Qed.

Lemma scan_loop_S (fuel : nat) (s : string) (start e : nat)
      (tokens : list JsonToken) (c : ascii) :
  get e s = Some c ->
  scan_loop (S fuel) s start e tokens =
    if is_space c then scan_loop fuel s e (S e) tokens
    else if Ascii.eqb c "{" then
      scan_loop fuel s e (S e) (tokens ++ [mkToken TOK_LEFT_BRACE "{"])
    else if Ascii.eqb c "}" then
      scan_loop fuel s e (S e) (tokens ++ [mkToken TOK_RIGHT_BRACE "}"])
    else if Ascii.eqb c ":" then
      scan_loop fuel s e (S e) (tokens ++ [mkToken TOK_COLON ":"])
    else if Ascii.eqb c "," then
      scan_loop fuel s e (S e) (tokens ++ [mkToken TOK_COMMA ","])
    else if Ascii.eqb c dquote then
      let end2 := advance_while not_quote s (String.length s - S e) (S e) in
      match get end2 s with
      | None => Some (LexFail UnterminatedString)
      | Some _ =>
          scan_loop fuel s end2 (S end2)
                    (tokens ++ [mkToken TOK_STR_VAL (substr s (S e) end2)])
      end
    else if is_digit c then
      let end2 := advance_while is_digit s (String.length s - S e) (S e) in
      match get end2 s with
      | None => Some (LexFail TruncatedNumber)
      | Some _ =>
          scan_loop fuel s end2 (S end2)
                    (tokens ++ [mkToken TOK_NUMBER (substr s start end2)])
      end
    else Some (LexFail (UnexpectedCharacter c)).
Proof. intro H. simpl. rewrite H. reflexivity. Qed.

(** An inner loop that stopped on a character of [pre] stops on the same
    character when more text follows [pre]. *)
Lemma advance_while_prefix (p : ascii -> bool) (pre suf : string)
      (e : nat) (c : ascii) :
  get (advance_while p pre (String.length pre - e) e) pre = Some c ->
  advance_while p (pre ++ suf) (String.length (pre ++ suf) - e) e
  = advance_while p pre (String.length pre - e) e.
Proof.
  intro Hc.
  destruct (advance_while_spec p pre (String.length pre - e) e)
    as (H1 & H2 & H3 & H4).
  pose proof (get_lt _ _ _ Hc) as Hlt.
  apply advance_while_stop.
  - exact H1.
  - rewrite append_length. lia.
  - intros j Hj. destruct (H3 j Hj) as (c' & Hc' & Hp).
    exists c'. split; [|exact Hp]. rewrite get_app_l; [exact Hc' | lia].
  - right. exists c. split.
    + rewrite get_app_l; assumption.
    + apply H4; [lia | exact Hc].
Qed.

(** Scanning [pre ++ suf] goes through the same iterations as scanning [pre]
    until the cursor stands at the first character of [suf]. *)
Lemma scan_loop_prefix (fuel : nat) :
  forall (pre suf : string) (start e : nat) (tokens tokens' : list JsonToken),
    start <= e -> e <= String.length pre ->
    scan_loop fuel pre start e tokens = Some (Tokens tokens') ->
    exists start',
      start' <= String.length pre /\
      forall k r,
        scan_loop k (pre ++ suf) start' (String.length pre) tokens' = Some r ->
        scan_loop (fuel + k) (pre ++ suf) start e tokens = Some r.
Proof.
  induction fuel as [|fuel IH]; intros pre suf start e tokens tokens' Hse Hle H.
  - simpl in H. destruct (get e pre) eqn:Hc; [discriminate|].
    inversion H; subst. apply get_none in Hc.
    assert (e = String.length pre) by lia; subst.
    exists start. split; [lia|]. intros k r Hr. exact Hr.
  - destruct (get e pre) as [c|] eqn:Hc.
    2:{ rewrite scan_loop_end in H by assumption. inversion H; subst.
        apply get_none in Hc.
        assert (e = String.length pre) by lia; subst.
        exists start. split; [lia|]. intros k r Hr.
        replace (S fuel + k) with (k + S fuel) by lia.
        now apply scan_loop_more_fuel. }
    pose proof (get_lt _ _ _ Hc) as Hlt.
    assert (Hc' : get e (pre ++ suf) = Some c) by (rewrite get_app_l; assumption).
    rewrite (scan_loop_S _ _ _ _ _ _ Hc) in H.
    assert (Hstep : forall toks1,
               scan_loop fuel pre e (S e) toks1 = Some (Tokens tokens') ->
               exists start',
                 start' <= String.length pre /\
                 forall k r,
                   scan_loop k (pre ++ suf) start' (String.length pre) tokens'
                   = Some r ->
                   scan_loop (fuel + k) (pre ++ suf) e (S e) toks1 = Some r).
    { intros toks1 H1. apply IH; [lia | lia | exact H1]. }
    destruct (is_space c) eqn:E1.
    { destruct (Hstep _ H) as (s' & Hs' & Hk). exists s'. split; [exact Hs'|].
      intros k r Hr. change (S fuel + k) with (S (fuel + k)).
      rewrite (scan_loop_S _ _ _ _ _ _ Hc'), E1. now apply Hk. }
    destruct (Ascii.eqb c "{") eqn:E2.
    { destruct (Hstep _ H) as (s' & Hs' & Hk). exists s'. split; [exact Hs'|].
      intros k r Hr. change (S fuel + k) with (S (fuel + k)).
      rewrite (scan_loop_S _ _ _ _ _ _ Hc'), E1, E2. now apply Hk. }
    destruct (Ascii.eqb c "}") eqn:E3.
    { destruct (Hstep _ H) as (s' & Hs' & Hk). exists s'. split; [exact Hs'|].
      intros k r Hr. change (S fuel + k) with (S (fuel + k)).
      rewrite (scan_loop_S _ _ _ _ _ _ Hc'), E1, E2, E3. now apply Hk. }
    destruct (Ascii.eqb c ":") eqn:E4.
    { destruct (Hstep _ H) as (s' & Hs' & Hk). exists s'. split; [exact Hs'|].
      intros k r Hr. change (S fuel + k) with (S (fuel + k)).
      rewrite (scan_loop_S _ _ _ _ _ _ Hc'), E1, E2, E3, E4. now apply Hk. }
    destruct (Ascii.eqb c ",") eqn:E5.
    { destruct (Hstep _ H) as (s' & Hs' & Hk). exists s'. split; [exact Hs'|].
      intros k r Hr. change (S fuel + k) with (S (fuel + k)).
      rewrite (scan_loop_S _ _ _ _ _ _ Hc'), E1, E2, E3, E4, E5. now apply Hk. }
    destruct (Ascii.eqb c dquote) eqn:E6.
    { cbv zeta in H.
      destruct (get (advance_while not_quote pre (String.length pre - S e) (S e))
                    pre) as [c2|] eqn:Hc2; [|discriminate].
      pose proof (advance_while_prefix not_quote pre suf (S e) c2 Hc2) as Hadv.
      pose proof (get_lt _ _ _ Hc2) as Hlt2.
      destruct (advance_while_spec not_quote pre (String.length pre - S e) (S e))
        as (Hge & _).
      apply IH with (suf := suf) in H; [|lia|lia].
      destruct H as (s' & Hs' & Hk). exists s'. split; [exact Hs'|].
      intros k r Hr. change (S fuel + k) with (S (fuel + k)).
      rewrite (scan_loop_S _ _ _ _ _ _ Hc'), E1, E2, E3, E4, E5, E6.
      cbv zeta. rewrite Hadv.
      rewrite get_app_l by assumption. rewrite Hc2.
      unfold substr in *. rewrite substring_app_l by lia.
      now apply Hk. }
    destruct (is_digit c) eqn:E7; [|discriminate].
    cbv zeta in H.
    destruct (get (advance_while is_digit pre (String.length pre - S e) (S e))
                  pre) as [c2|] eqn:Hc2; [|discriminate].
    pose proof (advance_while_prefix is_digit pre suf (S e) c2 Hc2) as Hadv.
    pose proof (get_lt _ _ _ Hc2) as Hlt2.
    destruct (advance_while_spec is_digit pre (String.length pre - S e) (S e))
      as (Hge & _).
    apply IH with (suf := suf) in H; [|lia|lia].
    destruct H as (s' & Hs' & Hk). exists s'. split; [exact Hs'|].
    intros k r Hr. change (S fuel + k) with (S (fuel + k)).
    rewrite (scan_loop_S _ _ _ _ _ _ Hc'), E1, E2, E3, E4, E5, E6, E7.
    cbv zeta. rewrite Hadv.
    rewrite get_app_l by assumption. rewrite Hc2.
    unfold substr in *. rewrite substring_app_l by lia.
    now apply Hk.
Qed.

(** The same for the entry point: when [scan pre] returns tokens, [scan] of
    [pre ++ suf] reaches the first character of [suf] with those tokens. *)
Lemma scan_reaches (pre suf : string) (tokens : list JsonToken) :
  scan pre = Some (Tokens tokens) ->
  exists start,
    start <= String.length pre /\
    scan (pre ++ suf)
    = scan_loop (String.length suf) (pre ++ suf) start (String.length pre) tokens.
Proof.
  intro H. unfold scan in *.
  destruct (scan_loop_prefix (String.length pre) pre suf 0 0 [] tokens
                             (le_n _) (Nat.le_0_l _) H) as (s' & Hs' & Hk).
  exists s'. split; [exact Hs'|].
  destruct (scan_loop_total (String.length suf) (pre ++ suf) s'
                            (String.length pre) tokens) as (r & Hr).
  { rewrite append_length. lia. }
  rewrite Hr, append_length. now apply Hk.
Qed.

Lemma scan_loop_quote (fuel : nat) (s : string) (start e : nat)
      (tokens : list JsonToken) :
  get e s = Some dquote ->
  scan_loop (S fuel) s start e tokens =
    match get (advance_while not_quote s (String.length s - S e) (S e)) s with
    | None => Some (LexFail UnterminatedString)
    | Some _ =>
        scan_loop fuel s
                  (advance_while not_quote s (String.length s - S e) (S e))
                  (S (advance_while not_quote s (String.length s - S e) (S e)))
                  (tokens ++ [mkToken TOK_STR_VAL
                                (substr s (S e)
                                   (advance_while not_quote s
                                      (String.length s - S e) (S e)))])
    end.
Proof. intro H. rewrite (scan_loop_S _ _ _ _ _ _ H). reflexivity. Qed.

Lemma digit_is_no_other_class (c : ascii) :
  is_digit c = true ->
  is_space c = false /\ Ascii.eqb c "{" = false /\ Ascii.eqb c "}" = false
  /\ Ascii.eqb c ":" = false /\ Ascii.eqb c "," = false
  /\ Ascii.eqb c dquote = false.
Proof.
  destruct c as [b0 b1 b2 b3 b4 b5 b6 b7].
  destruct b0, b1, b2, b3, b4, b5, b6, b7; vm_compute; intro H;
    try discriminate H; repeat split.
Qed.

Lemma scan_loop_digit (fuel : nat) (s : string) (start e : nat)
      (tokens : list JsonToken) (c : ascii) :
  get e s = Some c -> is_digit c = true ->
  scan_loop (S fuel) s start e tokens =
    match get (advance_while is_digit s (String.length s - S e) (S e)) s with
    | None => Some (LexFail TruncatedNumber)
    | Some _ =>
        scan_loop fuel s
                  (advance_while is_digit s (String.length s - S e) (S e))
                  (S (advance_while is_digit s (String.length s - S e) (S e)))
                  (tokens ++ [mkToken TOK_NUMBER
                                (substr s start
                                   (advance_while is_digit s
                                      (String.length s - S e) (S e)))])
    end.
Proof.
  intros H Hd. rewrite (scan_loop_S _ _ _ _ _ _ H).
  destruct (digit_is_no_other_class c Hd) as (E1 & E2 & E3 & E4 & E5 & E6).
  rewrite E1, E2, E3, E4, E5, E6, Hd. reflexivity.
Qed.

Lemma all_chars_get (p : ascii -> bool) (s : string) (j : nat) :
  all_chars p s = true -> j < String.length s ->
  exists c, get j s = Some c /\ p c = true.
Proof.
  revert j; induction s as [|x s IH]; intros j H Hj; simpl in *; [lia|].
  apply andb_true_iff in H as [Hx Hs].
  destruct j as [|j].
  - exists x. split; [reflexivity | exact Hx].
  - apply IH; [exact Hs | lia].
Qed.

(** The inner loop started at the first character of [run], all of whose
    characters pass [p], stops at the character behind [run]. *)
Lemma advance_while_run (p : ascii -> bool) (pre run rest : string) :
  all_chars p run = true ->
  match rest with
  | EmptyString => True
  | String c _ => p c = false
  end ->
  advance_while p (pre ++ run ++ rest)
                (String.length (pre ++ run ++ rest) - String.length pre)
                (String.length pre)
  = String.length pre + String.length run.
Proof.
  intros Hrun Hrest. apply advance_while_stop.
  - lia.
  - rewrite !append_length. lia.
  - intros j Hj.
    destruct (all_chars_get p run (j - String.length pre) Hrun) as (c & Hc & Hp);
      [lia|].
    exists c. split; [|exact Hp].
    replace j with (String.length pre + (j - String.length pre)) by lia.
    rewrite get_app_r, get_app_l by lia. exact Hc.
  - rewrite <- append_assoc, <- append_length, <- (Nat.add_0_r (String.length _)).
    rewrite get_app_r. destruct rest as [|c rest]; [now left|].
    right. exists c. split; [reflexivity | exact Hrest].
Qed.

Lemma append_shift (a b : string) (c : ascii) :
  (a ++ String c b)%string = ((a ++ str1 c) ++ b)%string.
Proof. now rewrite append_assoc. Qed.

Lemma length_snoc (a : string) (c : ascii) :
  String.length (a ++ str1 c) = S (String.length a).
Proof. rewrite append_length. simpl. lia. Qed.

Lemma get_first_after (a b : string) (c : ascii) :
  get (String.length a) (a ++ String c b) = Some c.
Proof.
  rewrite <- (Nat.add_0_r (String.length a)), get_app_r. reflexivity.
Qed.

(** ** C7 *)

(** C7, amended.  When the text is a prefix that [scan] tokenizes, followed
    by a non-empty run of digits that reaches the end of the input, [scan]
    stops with the truncated-number failure and returns no token for the
    run. *)
Theorem truncated_number_after_scanned_prefix
        (pre run : string) (tokens : list JsonToken) :
  scan pre = Some (Tokens tokens) ->
  run <> EmptyString ->
  all_chars is_digit run = true ->
  scan (pre ++ run) = Some (LexFail TruncatedNumber)
  /\ returned_tokens (LexFail TruncatedNumber) = [].
Proof.
  intros Hpre Hne Hrun. split; [|reflexivity].
  destruct run as [|d run']; [contradiction|].
  simpl in Hrun. apply andb_true_iff in Hrun as [Hd Hrun'].
  destruct (scan_reaches pre (String d run') tokens Hpre) as (st & _ & ->).
  simpl String.length.
  rewrite (scan_loop_digit _ _ _ _ _ d (get_first_after pre run' d) Hd).
  pose proof (advance_while_run is_digit (pre ++ str1 d) run' EmptyString
                                Hrun' I) as Hadv.
  rewrite append_nil_r, <- append_shift, length_snoc in Hadv.
  rewrite Hadv.
  assert (Hnone : get (S (String.length pre) + String.length run')
                      (pre ++ String d run') = None).
  { apply get_none. rewrite append_length. simpl. lia. }
  now rewrite Hnone.
Qed.

(** The whole file [42]. *)
Lemma truncated_number_after_scanned_prefix_witness :
  (scan EmptyString = Some (Tokens [])
   /\ "42" <> EmptyString
   /\ all_chars is_digit "42" = true)
  /\ scan "42" = Some (LexFail TruncatedNumber).
Proof.
  split.
  - split; [reflexivity | split; [discriminate | reflexivity]].
  - apply (truncated_number_after_scanned_prefix EmptyString "42" []);
      [reflexivity | discriminate | reflexivity].
Defined.

(** C7 as stated fails on a text whose final digit run lies inside a string
    literal that is never closed: the text is a double quote followed by
    [42], and the failure [scan] reports is the unterminated string. *)
Lemma trailing_digits_in_open_string :
  ends_in_digit_run (String dquote "42") (str1 dquote) "42"
  /\ scan (String dquote "42") = Some (LexFail UnterminatedString)
  /\ scan (String dquote "42") <> Some (LexFail TruncatedNumber).
Proof.
  split; [|split].
  - unfold ends_in_digit_run. repeat split; [discriminate].
  - reflexivity.
  - discriminate.
Qed.

(** ** C8 *)

(** C8.  Once [scan] has tokenized [pre] and meets a double quote, the
    characters up to the next double quote, whatever they are (a backslash
    included), are the content of the string token, and scanning goes on
    behind that quote; when no double quote follows, [scan] stops with the
    unterminated-string failure. *)
Theorem string_literal_up_to_next_quote
        (pre literal rest : string) (tokens : list JsonToken) :
  scan pre = Some (Tokens tokens) ->
  all_chars not_quote literal = true ->
  scan (pre ++ String dquote literal) = Some (LexFail UnterminatedString)
  /\ scan (pre ++ quoted literal ++ rest)
     = scan_loop (String.length rest) (pre ++ quoted literal ++ rest)
                 (String.length pre + S (String.length literal))
                 (S (String.length pre + S (String.length literal)))
                 (tokens ++ [STR literal]).
Proof.
  intros Hpre Hlit. split.
  - destruct (scan_reaches pre (String dquote literal) tokens Hpre)
      as (st & _ & ->).
    simpl String.length.
    rewrite (scan_loop_quote _ _ _ _ _ (get_first_after pre literal dquote)).
    pose proof (advance_while_run not_quote (pre ++ str1 dquote) literal
                                  EmptyString Hlit I) as Hadv.
    rewrite append_nil_r, <- append_shift, length_snoc in Hadv.
    rewrite Hadv.
    assert (Hnone : get (S (String.length pre) + String.length literal)
                        (pre ++ String dquote literal) = None).
    { apply get_none. rewrite append_length. simpl. lia. }
    now rewrite Hnone.
  - unfold quoted. simpl append.
    destruct (scan_reaches pre (String dquote ((literal ++ str1 dquote) ++ rest))
                           tokens Hpre) as (st & _ & ->).
    simpl String.length.
    rewrite (scan_loop_quote _ _ _ _ _
               (get_first_after pre ((literal ++ str1 dquote) ++ rest) dquote)).
    pose proof (advance_while_run not_quote (pre ++ str1 dquote) literal
                                  (String dquote rest) Hlit eq_refl) as Hadv.
    rewrite <- append_shift, length_snoc in Hadv.
    change (String dquote rest) with (str1 dquote ++ rest)%string in Hadv.
    rewrite <- append_assoc in Hadv.
    rewrite Hadv.
    assert (Hq : get (S (String.length pre) + String.length literal)
                     (pre ++ String dquote ((literal ++ str1 dquote) ++ rest))
                 = Some dquote).
    { rewrite (append_shift pre _ dquote), (append_assoc literal).
      replace (S (String.length pre) + String.length literal)
        with (String.length (pre ++ str1 dquote) + String.length literal)
        by (rewrite length_snoc; reflexivity).
      rewrite get_app_r. apply get_first_after. }
    rewrite Hq.
    assert (Hsub : substr (pre ++ String dquote ((literal ++ str1 dquote) ++ rest))
                          (S (String.length pre))
                          (S (String.length pre) + String.length literal)
                   = literal).
    { unfold substr. rewrite (append_shift pre _ dquote), (append_assoc literal).
      rewrite <- length_snoc with (c := dquote).
      rewrite substring_skip.
      replace (String.length (pre ++ str1 dquote) + String.length literal
               - String.length (pre ++ str1 dquote))
        with (String.length literal) by lia.
      apply substring_all. }
    rewrite Hsub.
    replace (String.length pre + S (String.length literal))
      with (S (String.length pre) + String.length literal) by lia.
    apply scan_loop_fuel_irrelevant;
      rewrite !append_length; simpl; rewrite !append_length; simpl; lia.
Qed.

(** The text [text_unterminated], whose last literal is never closed, and a
    literal that ends in a backslash: the quote behind the backslash closes
    it, and the character behind that quote is scanned as the next token. *)
Lemma string_literal_up_to_next_quote_witness :
  (scan ("{" ++ quoted "a" ++ ": ") = Some (Tokens [LB; STR "a"; COLON])
   /\ all_chars not_quote "unterminated" = true
   /\ all_chars not_quote "x\" = true)
  /\ scan text_unterminated = Some (LexFail UnterminatedString)
  /\ scan ("{" ++ quoted "a" ++ ": " ++ quoted "x\" ++ "y" ++ str1 dquote ++ " }")
     = Some (LexFail (UnexpectedCharacter "y")).
Proof.
  split; [repeat split|]. split.
  - exact (proj1 (string_literal_up_to_next_quote
                    ("{" ++ quoted "a" ++ ": ") "unterminated" EmptyString
                    [LB; STR "a"; COLON] eq_refl eq_refl)).
  - exact (eq_trans
             (proj2 (string_literal_up_to_next_quote
                       ("{" ++ quoted "a" ++ ": ") "x\"
                       ("y" ++ str1 dquote ++ " }")
                       [LB; STR "a"; COLON] eq_refl eq_refl))
             eq_refl).
Defined.

(** ** The parser's loops *)

Lemma match_brace_bounds (fuel : nat) :
  forall (tokens : list JsonToken) (e : nat) (d : Z),
    e <= fst (match_brace fuel tokens e d)
    /\ fst (match_brace fuel tokens e d) <= e + fuel.
Proof.
  induction fuel as [|fuel IH]; intros tokens e d; simpl.
  - lia.
  - destruct (nth_error tokens e) as [tok|]; simpl; [|lia].
    destruct (0 <? d)%Z; simpl; [|lia].
    match goal with
    | |- context [match_brace fuel tokens (S e) ?d'] =>
        destruct (IH tokens (S e) d')
    end.
    lia.
Qed.

(** The loop runs at least once when it starts inside the vector. *)
Lemma closing_idx_bounds (tokens : list JsonToken) (i : nat) :
  i < List.length tokens ->
  i < closing_idx tokens i /\ closing_idx tokens i <= List.length tokens.
Proof.
  intro Hi. unfold closing_idx.
  pose proof (match_brace_bounds (List.length tokens - i) tokens i 1) as [_ Hub].
  split; [|lia].
  destruct (List.length tokens - i) as [|fuel] eqn:Hf; [lia|].
  simpl. destruct (nth_error tokens i) as [tok|] eqn:Ht.
  - simpl.
    match goal with
    | |- context [match_brace fuel tokens (S i) ?d'] =>
        destruct (match_brace_bounds fuel tokens (S i) d')
    end.
    lia.
  - apply nth_error_None in Ht. lia.
Qed.

Lemma match_brace_cons (fuel : nat) :
  forall (t : JsonToken) (tokens : list JsonToken) (e : nat) (d : Z),
    match_brace fuel (t :: tokens) (S e) d
    = (S (fst (match_brace fuel tokens e d)), snd (match_brace fuel tokens e d)).
Proof.
  induction fuel as [|fuel IH]; intros t tokens e d; simpl.
  - reflexivity.
  - destruct (nth_error tokens e) as [tok|]; [|reflexivity].
    destruct (0 <? d)%Z; [|reflexivity].
    apply IH.
Qed.

Lemma closing_idx_cons (t : JsonToken) (tokens : list JsonToken) (i : nat) :
  closing_idx (t :: tokens) (S i) = S (closing_idx tokens i).
Proof. unfold closing_idx. simpl List.length. simpl Nat.sub.
       now rewrite match_brace_cons. Qed.

Lemma extract_from_to_length (tokens : list JsonToken) (from to : nat)
      (ex : list JsonToken * list JsonToken) :
  extract_from_to tokens from to = Returned ex ->
  from <= to /\ to <= List.length tokens
  /\ List.length (fst ex) = to - from
  /\ List.length (snd ex) = List.length tokens - (to - from).
Proof.
  unfold extract_from_to.
  destruct (to <? from) eqn:E1; [discriminate|].
  destruct (List.length tokens <? to) eqn:E2; [discriminate|].
  apply Nat.ltb_ge in E1, E2.
  destruct (to =? from) eqn:E3; intro H; inversion H; subst; simpl.
  - apply Nat.eqb_eq in E3. lia.
  - rewrite length_app, !length_firstn, !length_skipn. lia.
Qed.

(** The two assertions of [extract_from_to] hold at both places [parse]
    calls it from. *)
Lemma group_span_returns (tokens : list JsonToken) (i : nat) :
  exists span, group_span tokens i = Returned span.
Proof.
  unfold group_span. destruct (List.length tokens <=? i) eqn:E; [eauto|].
  apply Nat.leb_gt in E. destruct (closing_idx_bounds tokens i E) as [H1 H2].
  unfold extract_from_to.
  destruct (closing_idx tokens i - 1 <? i) eqn:E1;
    [apply Nat.ltb_lt in E1; lia|].
  destruct (List.length tokens <? closing_idx tokens i - 1) eqn:E2;
    [apply Nat.ltb_lt in E2; lia|].
  destruct (closing_idx tokens i - 1 =? i); simpl; eauto.
Qed.

Lemma group_span_length (tokens group_tokens tokens1 : list JsonToken) (i : nat) :
  group_span tokens i = Returned (Some (group_tokens, tokens1)) ->
  List.length group_tokens + i < List.length tokens
  /\ List.length tokens1 <= List.length tokens.
Proof.
  unfold group_span. destruct (List.length tokens <=? i) eqn:E; [discriminate|].
  apply Nat.leb_gt in E. destruct (closing_idx_bounds tokens i E) as [H1 H2].
  destruct (extract_from_to tokens i (closing_idx tokens i - 1)) as [ex| | |] eqn:Hex;
    simpl; try discriminate.
  intro H; inversion H; subst. clear H.
  apply extract_from_to_length in Hex. simpl in Hex. lia.
Qed.

Lemma extract_from_to_cons (t : JsonToken) (tokens : list JsonToken)
      (from to : nat) :
  extract_from_to (t :: tokens) (S from) (S to)
  = (ex <- extract_from_to tokens from to ;; Returned (fst ex, t :: snd ex)).
Proof.
  unfold extract_from_to.
  change (S to <? S from) with (to <? from).
  change (List.length (t :: tokens) <? S to) with (List.length tokens <? to).
  change (S to =? S from) with (to =? from).
  destruct (to <? from); [reflexivity|].
  destruct (List.length tokens <? to); [reflexivity|].
  destruct (to =? from); reflexivity.
Qed.

(** A token in front of the cursor moves along with the vector. *)
Lemma group_span_cons (t : JsonToken) (tokens : list JsonToken) (i : nat) :
  group_span (t :: tokens) (S i)
  = (span <- group_span tokens i ;;
     Returned (option_map (fun ex => (fst ex, t :: snd ex)) span)).
Proof.
  unfold group_span.
  change (List.length (t :: tokens) <=? S i) with (List.length tokens <=? i).
  destruct (List.length tokens <=? i) eqn:E; [reflexivity|].
  apply Nat.leb_gt in E. destruct (closing_idx_bounds tokens i E) as [H1 H2].
  rewrite closing_idx_cons.
  replace (S (closing_idx tokens i) - 1) with (S (closing_idx tokens i - 1))
    by lia.
  rewrite extract_from_to_cons.
  destruct (extract_from_to tokens i (closing_idx tokens i - 1)); reflexivity.
Qed.

Lemma parse_loop_S (parse_rec : list JsonToken -> Outcome JsonObject)
      (fuel : nat) (tokens : list JsonToken) (i : nat)
      (objects : list JsonObject) (tok : JsonToken) :
  nth_error tokens i = Some tok ->
  parse_loop parse_rec (S fuel) tokens i objects =
    match type tok with
    | TOK_LEFT_BRACE =>
        span <- group_span tokens (S i) ;;
        match span with
        | None => Returned objects
        | Some (group_tokens, tokens1) =>
            group_object <- parse_rec group_tokens ;;
            parse_loop parse_rec fuel tokens1 (S (S i)) (objects ++ [group_object])
        end
    | TOK_STR_VAL =>
        tok1 <- tok_at tokens (S i) ;;
        if negb (JsonTokenType_eqb (type tok1) TOK_COLON)
        then Nullopt ExpectedColon
        else
          tok2 <- tok_at tokens (S (S i)) ;;
          match type tok2 with
          | TOK_NUMBER =>
              number <- stoi (content tok2) ;;
              parse_loop parse_rec fuel tokens (S (S (S i)))
                         (objects ++ [JsonNumber (content tok) number])
          | TOK_STR_VAL =>
              parse_loop parse_rec fuel tokens (S (S (S i)))
                         (objects ++ [JsonString (content tok) (content tok2)])
          | TOK_LEFT_BRACE =>
              span <- group_span tokens (S (S (S i))) ;;
              match span with
              | None => Returned objects
              | Some (group_tokens, tokens1) =>
                  group_object <- parse_rec group_tokens ;;
                  match group_object with
                  | JsonGroup name fields =>
                      if negb (String.eqb name ROOT)
                      then Nullopt DoubleNaming
                      else parse_loop parse_rec fuel tokens1 (S (S (S (S i))))
                                      (objects ++ [JsonGroup (content tok) fields])
                  | other =>
                      parse_loop parse_rec fuel tokens1 (S (S (S (S i))))
                                 (objects ++ [other])
                  end
              end
          | _ => Crash AssertionFailed
          end
    | _ => parse_loop parse_rec fuel tokens (S i) objects
    end.
Proof.
  intro H.
  assert (Hlt : i < List.length tokens)
    by (apply nth_error_Some; rewrite H; discriminate).
  apply Nat.leb_gt in Hlt.
  simpl. rewrite Hlt. unfold tok_at at 1. rewrite H. reflexivity.
Qed.

Lemma parse_loop_done (parse_rec : list JsonToken -> Outcome JsonObject)
      (fuel : nat) (tokens : list JsonToken) (i : nat)
      (objects : list JsonObject) :
  List.length tokens <= i ->
  parse_loop parse_rec fuel tokens i objects = Returned objects.
Proof.
  intro H. apply Nat.leb_le in H. destruct fuel; simpl; now rewrite H.
Qed.

(** The loop only calls [parse_rec] on vectors shorter than its own. *)
Lemma parse_loop_ext (rec1 rec2 : list JsonToken -> Outcome JsonObject)
      (fuel : nat) :
  forall (tokens : list JsonToken) (i : nat) (objects : list JsonObject),
    (forall l, List.length l < List.length tokens -> rec1 l = rec2 l) ->
    parse_loop rec1 fuel tokens i objects = parse_loop rec2 fuel tokens i objects.
Proof.
  induction fuel as [|fuel IH]; intros tokens i objects Hrec; [reflexivity|].
  destruct (nth_error tokens i) as [tok|] eqn:Ht.
  2:{ apply nth_error_None in Ht. now rewrite !parse_loop_done. }
  rewrite !(parse_loop_S _ _ _ _ _ _ Ht).
  destruct (type tok); try (apply IH; assumption).
  - destruct (group_span tokens (S i)) as [[[g t1]|]| | |] eqn:Hs; simpl;
      try reflexivity.
    apply group_span_length in Hs as [Hg Ht1].
    rewrite (Hrec g) by lia.
    destruct (rec2 g); simpl; try reflexivity.
    apply IH. intros l Hl. apply Hrec. lia.
  - destruct (tok_at tokens (S i)) as [tok1| | |]; simpl; try reflexivity.
    destruct (negb _); [reflexivity|].
    destruct (tok_at tokens (S (S i))) as [tok2| | |]; simpl; try reflexivity.
    destruct (type tok2); try reflexivity; try (apply IH; assumption).
    + destruct (group_span tokens (S (S (S i)))) as [[[g t1]|]| | |] eqn:Hs;
        simpl; try reflexivity.
      apply group_span_length in Hs as [Hg Ht1].
      rewrite (Hrec g) by lia.
      destruct (rec2 g) as [[name fields|name value|name number]| | |]; simpl;
        try reflexivity;
        try (apply IH; intros l Hl; apply Hrec; lia).
      destruct (negb _); [reflexivity|].
      apply IH; intros l Hl; apply Hrec; lia.
    + destruct (stoi (content tok2)); simpl; try reflexivity.
      apply IH; assumption.
Qed.

(** The loop never looks in front of its cursor. *)
Lemma parse_loop_cons (parse_rec : list JsonToken -> Outcome JsonObject)
      (fuel : nat) :
  forall (t : JsonToken) (tokens : list JsonToken) (i : nat)
         (objects : list JsonObject),
    parse_loop parse_rec fuel (t :: tokens) (S i) objects
    = parse_loop parse_rec fuel tokens i objects.
Proof.
  induction fuel as [|fuel IH]; intros t tokens i objects; [reflexivity|].
  destruct (nth_error tokens i) as [tok|] eqn:Ht.
  2:{ apply nth_error_None in Ht.
      rewrite !parse_loop_done; [reflexivity | lia | simpl; lia]. }
  assert (Ht' : nth_error (t :: tokens) (S i) = Some tok) by exact Ht.
  rewrite (parse_loop_S _ _ _ _ _ _ Ht), (parse_loop_S _ _ _ _ _ _ Ht').
  destruct (type tok); try apply IH.
  - rewrite group_span_cons.
    destruct (group_span tokens (S i)) as [[[g t1]|]| | |]; simpl;
      try reflexivity.
    destruct (parse_rec g); simpl; try reflexivity. apply IH.
  - change (tok_at (t :: tokens) (S (S i))) with (tok_at tokens (S i)).
    change (tok_at (t :: tokens) (S (S (S i)))) with (tok_at tokens (S (S i))).
    destruct (tok_at tokens (S i)) as [tok1| | |]; simpl; try reflexivity.
    destruct (negb _); [reflexivity|].
    destruct (tok_at tokens (S (S i))) as [tok2| | |]; simpl; try reflexivity.
    destruct (type tok2); try reflexivity; try apply IH.
    + rewrite group_span_cons.
      destruct (group_span tokens (S (S (S i)))) as [[[g t1]|]| | |]; simpl;
        try reflexivity.
      destruct (parse_rec g) as [[name fields|name value|name number]| | |];
        simpl; try reflexivity; try apply IH.
      destruct (negb _); [reflexivity | apply IH].
    + destruct (stoi (content tok2)); simpl; try reflexivity. apply IH.
Qed.

(** One unit of loop fuel per token behind the cursor is enough, as long as
    the recursive calls come back. *)
Lemma parse_loop_fuel_enough (parse_rec : list JsonToken -> Outcome JsonObject)
      (fuel : nat) :
  forall (tokens : list JsonToken) (i : nat) (objects : list JsonObject),
    (forall l, List.length l < List.length tokens -> parse_rec l <> OutOfFuel) ->
    List.length tokens - i <= fuel ->
    parse_loop parse_rec fuel tokens i objects <> OutOfFuel.
Proof.
  induction fuel as [|fuel IH]; intros tokens i objects Hrec Hfuel.
  - rewrite parse_loop_done by lia. discriminate.
  - destruct (nth_error tokens i) as [tok|] eqn:Ht.
    2:{ apply nth_error_None in Ht. rewrite parse_loop_done by lia.
        discriminate. }
    assert (Hi : i < List.length tokens)
      by (apply nth_error_Some; rewrite Ht; discriminate).
    rewrite (parse_loop_S _ _ _ _ _ _ Ht).
    destruct (type tok); try (apply IH; [assumption | lia]).
    + destruct (group_span_returns tokens (S i)) as (span & Hs). rewrite Hs.
      simpl. destruct span as [[g t1]|]; [|discriminate].
      apply group_span_length in Hs as [Hg Ht1].
      specialize (Hrec g ltac:(lia)) as Hg'.
      destruct (parse_rec g); simpl; try discriminate; try contradiction.
      apply IH; [intros l Hl; apply Hrec; lia | lia].
    + destruct (tok_at tokens (S i)) as [tok1| | |] eqn:H1; simpl;
        try discriminate.
      { destruct (negb _); [discriminate|].
        destruct (tok_at tokens (S (S i))) as [tok2| | |] eqn:H2; simpl;
          try discriminate.
        - destruct (type tok2); try discriminate;
            try (apply IH; [assumption | lia]).
          + destruct (group_span_returns tokens (S (S (S i)))) as (span & Hs).
            rewrite Hs. simpl. destruct span as [[g t1]|]; [|discriminate].
            apply group_span_length in Hs as [Hg Ht1].
            specialize (Hrec g ltac:(lia)) as Hg'.
            destruct (parse_rec g) as [[name fields|name value|name number]| | |];
              simpl; try discriminate; try contradiction;
              try (apply IH; [intros l Hl; apply Hrec; lia | lia]).
            destruct (negb _); [discriminate|].
            apply IH; [intros l Hl; apply Hrec; lia | lia].
          + destruct (stoi (content tok2)) eqn:Hst; simpl; try discriminate.
            * apply IH; [assumption | lia].
            * unfold stoi, stoi_unsigned in Hst.
              repeat match type of Hst with
                     | context [match ?x with _ => _ end] => destruct x
                     end; discriminate.
        - unfold tok_at in H2. destruct (nth_error tokens (S (S i)));
            discriminate. }
      unfold tok_at in H1. destruct (nth_error tokens (S i)); discriminate.
Qed.

(** [parse] comes back: the fuel of its definition is never used up. *)
Lemma parse_fuel_enough (fuel : nat) :
  forall tokens : list JsonToken,
    List.length tokens < fuel -> parse_fuel fuel tokens <> OutOfFuel.
Proof.
  induction fuel as [|fuel IH]; intros tokens Hlen; [lia|].
  simpl.
  pose proof (parse_loop_fuel_enough (parse_fuel fuel) (List.length tokens)
                tokens 0 []) as Hloop.
  destruct (parse_loop (parse_fuel fuel) (List.length tokens) tokens 0 []);
    simpl; try discriminate.
  exfalso. apply Hloop; [|lia|reflexivity]. intros l Hl. apply IH. lia.
Qed.

Lemma parse_total (tokens : list JsonToken) : parse tokens <> OutOfFuel.
Proof. apply parse_fuel_enough. lia. Qed.

(** More fuel than the vector is long changes nothing. *)
Lemma parse_fuel_stable (f1 : nat) :
  forall (f2 : nat) (tokens : list JsonToken),
    List.length tokens < f1 -> List.length tokens < f2 ->
    parse_fuel f1 tokens = parse_fuel f2 tokens.
Proof.
  induction f1 as [|f1 IH]; intros f2 tokens H1 H2; [lia|].
  destruct f2 as [|f2]; [lia|]. simpl.
  rewrite (parse_loop_ext (parse_fuel f1) (parse_fuel f2)); [reflexivity|].
  intros l Hl. apply IH; lia.
Qed.

(** ** C9 *)

(** C9.  A comma, a closing brace, a colon or a number that the loop of
    [parse] meets at its cursor is passed over: the next iteration starts
    one position further with the same vector and the same objects.  For a
    whole call: such a token in front of any token sequence changes nothing
    in what [parse] returns, and a sequence of such tokens alone gives the
    empty root group. *)
Theorem stray_token_accepted :
  (forall (parse_rec : list JsonToken -> Outcome JsonObject) (fuel : nat)
          (tokens : list JsonToken) (i : nat) (objects : list JsonObject)
          (tok : JsonToken),
      nth_error tokens i = Some tok ->
      is_stray (type tok) = true ->
      parse_loop parse_rec (S fuel) tokens i objects
      = parse_loop parse_rec fuel tokens (S i) objects)
  /\ (forall (tok : JsonToken) (tokens : list JsonToken),
         is_stray (type tok) = true ->
         parse (tok :: tokens) = parse tokens)
  /\ (forall tokens : list JsonToken,
         forallb (fun tok => is_stray (type tok)) tokens = true ->
         parse tokens = Returned (JsonGroup ROOT [])).
Proof.
  assert (Hstep : forall parse_rec fuel tokens i objects tok,
             nth_error tokens i = Some tok ->
             is_stray (type tok) = true ->
             parse_loop parse_rec (S fuel) tokens i objects
             = parse_loop parse_rec fuel tokens (S i) objects).
  { intros parse_rec fuel tokens i objects tok Ht Hs.
    rewrite (parse_loop_S _ _ _ _ _ _ Ht).
    destruct (type tok); try reflexivity; discriminate. }
  assert (Hfront : forall tok tokens,
             is_stray (type tok) = true ->
             parse (tok :: tokens) = parse tokens).
  { intros tok tokens Hs. unfold parse.
    change (parse_fuel (S (List.length (tok :: tokens))) (tok :: tokens))
      with (objects <- parse_loop (parse_fuel (S (List.length tokens)))
                                  (S (List.length tokens)) (tok :: tokens) 0 [] ;;
            Returned (root_unwrap objects)).
    rewrite (Hstep _ _ (tok :: tokens) 0 [] tok eq_refl Hs).
    rewrite parse_loop_cons.
    rewrite (parse_loop_ext (parse_fuel (S (List.length tokens)))
                            (parse_fuel (List.length tokens))).
    - reflexivity.
    - intros l Hl. apply parse_fuel_stable; lia. }
  split; [exact Hstep|]. split; [exact Hfront|].
  induction tokens as [|tok tokens IH]; intro Hall; [reflexivity|].
  simpl in Hall. apply andb_true_iff in Hall as [Hs Hall].
  rewrite (Hfront tok tokens Hs). exact (IH Hall).
Qed.

Lemma stray_token_accepted_witness :
  (nth_error [LB; COMMA; RB] 1 = Some COMMA /\ is_stray (type COMMA) = true)
  /\ parse_loop parse 1 [LB; COMMA; RB] 1 []
     = parse_loop parse 0 [LB; COMMA; RB] 2 []
  /\ parse (COMMA :: [LB; STR "a"; COLON; NUM "1"; RB])
     = parse [LB; STR "a"; COLON; NUM "1"; RB]
  /\ parse [COMMA; RB; COLON; NUM "7"] = Returned (JsonGroup ROOT []).
Proof.
  split; [split; reflexivity|]. split; [|split].
  - exact (proj1 stray_token_accepted parse 0 [LB; COMMA; RB] 1 [] COMMA
                 eq_refl eq_refl).
  - exact (proj1 (proj2 stray_token_accepted) COMMA
                 [LB; STR "a"; COLON; NUM "1"; RB] eq_refl).
  - exact (proj2 (proj2 stray_token_accepted)
                 [COMMA; RB; COLON; NUM "7"] eq_refl).
Defined.

(** ** C5 *)

(** C5.  With [objects] the sibling list the loop of one call has built:
    when it is a single group named by the root marker, [parse] returns that
    group; in every other case [parse] returns a group named by the root
    marker whose fields are [objects], in their order. *)
Theorem root_unwrapping (fuel : nat) (tokens : list JsonToken)
        (objects : list JsonObject) :
  parse_loop (parse_fuel fuel) (List.length tokens) tokens 0 [] = Returned objects ->
  (forall fields, objects = [JsonGroup ROOT fields] ->
                  parse_fuel (S fuel) tokens = Returned (JsonGroup ROOT fields))
  /\ ((forall fields, objects <> [JsonGroup ROOT fields]) ->
      parse_fuel (S fuel) tokens = Returned (JsonGroup ROOT objects)).
Proof.
  intro Hloop. simpl. rewrite Hloop. simpl. split.
  - intros fields ->. reflexivity.
  - intro Hne. f_equal.
    destruct objects as [|[name fields|name value|name number] [|o2 rest]];
      try reflexivity.
    simpl. destruct (String.eqb_spec name ROOT) as [->|Hn]; [|reflexivity].
    exfalso. exact (Hne fields eq_refl).
Qed.

Lemma root_unwrapping_witness :
  parse_loop (parse_fuel 5) 5 [LB; STR "a"; COLON; NUM "1"; RB] 0 []
  = Returned [JsonGroup ROOT [JsonNumber "a" 1]]
  /\ parse [LB; STR "a"; COLON; NUM "1"; RB]
     = Returned (JsonGroup ROOT [JsonNumber "a" 1])
  /\ parse [STR "a"; COLON; NUM "1"]
     = Returned (JsonGroup ROOT [JsonNumber "a" 1]).
Proof.
  split; [reflexivity|]. split.
  - exact (proj1 (root_unwrapping 5 [LB; STR "a"; COLON; NUM "1"; RB]
                                  [JsonGroup ROOT [JsonNumber "a" 1]] eq_refl)
                 [JsonNumber "a" 1] eq_refl).
  - apply (proj2 (root_unwrapping 3 [STR "a"; COLON; NUM "1"]
                                  [JsonNumber "a" 1] eq_refl)).
    intros fields H. discriminate H.
Defined.

(** ** C10 *)

(** C10.  Whenever [parse] returns an object, at the top or in a recursive
    call, the object is a group whose name is the root marker. *)
Theorem parse_returns_root_group (fuel : nat) (tokens : list JsonToken)
        (object : JsonObject) :
  parse_fuel fuel tokens = Returned object ->
  exists fields, object = JsonGroup ROOT fields.
Proof.
  destruct fuel as [|fuel]; [discriminate|]. simpl.
  destruct (parse_loop (parse_fuel fuel) (List.length tokens) tokens 0 [])
    as [objects| | |]; simpl; try discriminate.
  intro H. injection H as <-.
  destruct objects as [|[name fields|name value|name number] [|o2 rest]];
    simpl; eauto.
  destruct (String.eqb_spec name ROOT) as [->|Hn]; eauto.
Qed.

Lemma parse_returns_root_group_witness :
  parse [LB; STR "a"; COLON; LB; STR "b"; COLON; NUM "1"; RB; RB]
  = Returned (JsonGroup ROOT [JsonGroup "a" [JsonNumber "b" 1]])
  /\ exists fields,
      JsonGroup ROOT [JsonGroup "a" [JsonNumber "b" 1]] = JsonGroup ROOT fields.
Proof.
  split; [reflexivity|].
  exact (parse_returns_root_group 10
           [LB; STR "a"; COLON; LB; STR "b"; COLON; NUM "1"; RB; RB]
           (JsonGroup ROOT [JsonGroup "a" [JsonNumber "b" 1]]) eq_refl).
Defined.

(** ** C3 *)

(** C3, on the code.  For the text [{"a": 1}], [scan] returns four tokens:
    the content of the number token is the blank followed by [1], because
    the blank leaves [start] on itself, and the closing brace after the digit
    is stepped over by the [end++] of the loop header. *)
Theorem scan_a_1 :
  scan text_a_1 = Some (Tokens [LB; STR "a"; COLON; NUM " 1"])
  /\ scan text_a_1 <> Some (Tokens [LB; STR "a"; COLON; NUM "1"; RB]).
Proof. split; [reflexivity | discriminate]. Qed.

(** ** C1 *)

(** C1, on the code.  For the texts [{"a": 1}] and [{"a": {"b": 1}}] the
    pipeline ends in a read behind the end of a token vector; for
    [{"a": {"b": 1}, "c": {}}] it returns the rendering of a tree that has
    no field [c]. *)
Theorem round_trip_loses_structure :
  scan_parse_render text_a_1 = Some (Crash OutOfBoundsRead)
  /\ scan_parse_render text_a_b_1 = Some (Crash OutOfBoundsRead)
  /\ scan_parse_render text_a_b_c
     = Some (Returned
               (to_string (JsonGroup ROOT [JsonGroup "a" [JsonNumber "b" 1]]) 0)).
Proof. repeat split. Qed.

(** With a blank between every number and what follows it, the same
    pipeline returns a rendering with the fields of the text. *)
Example round_trip_with_blanks :
  scan_parse_render
    ("{" ++ quoted "a" ++ ": {" ++ quoted "b" ++ ": 1 }, "
         ++ quoted "c" ++ ": " ++ quoted "x" ++ "}")%string
  = Some (Returned
            (to_string
               (JsonGroup ROOT [JsonGroup "a" [JsonNumber "b" 1];
                                JsonString "c" "x"]) 0)).
Proof. reflexivity. Qed.

(** ** C2 *)

(** C2, on the code.  No path of [parse] reports unbalanced braces.  On the
    tokens of [{"a": {"b": 1}] (both as the specification lists them and as
    [scan] returns them) it reads behind the end of a token vector; on a
    lone opening brace, and on two opening braces and one closing brace, for
    which the depth counter is still 1 at the end of the vector, it returns
    an empty root group. *)
Theorem unbalanced_braces_not_reported :
  parse [LB; STR "a"; COLON; LB; STR "b"; COLON; NUM "1"; RB]
  = Crash OutOfBoundsRead
  /\ scan text_a_b_1_unclosed
     = Some (Tokens [LB; STR "a"; COLON; LB; STR "b"; COLON; NUM " 1"])
  /\ parse [LB; STR "a"; COLON; LB; STR "b"; COLON; NUM " 1"]
     = Crash OutOfBoundsRead
  /\ parse [LB] = Returned (JsonGroup ROOT [])
  /\ match_brace 2 [LB; LB; RB] 1 1 = (3, 1%Z)
  /\ parse [LB; LB; RB] = Returned (JsonGroup ROOT []).
Proof. repeat split. Qed.

(** ** C4 *)

Lemma match_brace_encloses (inner : list JsonToken) :
  forall (d : Z) (rb : JsonToken) (post : list JsonToken) (fuel : nat),
    encloses d inner = true ->
    type rb = TOK_RIGHT_BRACE ->
    List.length inner < fuel ->
    match_brace fuel (inner ++ rb :: post) 0 d = (S (List.length inner), 0%Z).
Proof.
  induction inner as [|tok rest IH]; intros d rb post fuel Henc Hrb Hfuel.
  - simpl in Henc. apply Z.eqb_eq in Henc. subst d.
    destruct fuel as [|fuel]; [simpl in Hfuel; lia|].
    simpl. rewrite Hrb. simpl.
    destruct fuel as [|fuel]; [reflexivity|].
    simpl. destruct post; reflexivity.
  - simpl in Henc. apply andb_true_iff in Henc as [Hd Henc].
    destruct fuel as [|fuel]; [simpl in Hfuel; lia|].
    simpl in Hfuel.
    cbn [match_brace app nth_error]. rewrite Hd.
    rewrite match_brace_cons.
    rewrite (IH _ rb post fuel Henc Hrb) by lia.
    reflexivity.
Qed.

(** The span between an opening brace and the brace that closes it is what
    [group_span] extracts; the two braces stay in the vector. *)
Lemma group_span_encloses (inner : list JsonToken) (rb : JsonToken)
      (post : list JsonToken) :
  encloses 1 inner = true ->
  type rb = TOK_RIGHT_BRACE ->
  group_span (inner ++ rb :: post) 0 = Returned (Some (inner, rb :: post)).
Proof.
  intros Henc Hrb. unfold group_span, closing_idx.
  rewrite (match_brace_encloses inner 1 rb post _ Henc Hrb)
    by (rewrite length_app; simpl; lia).
  destruct (List.length (inner ++ rb :: post) <=? 0) eqn:E.
  { apply Nat.leb_le in E. rewrite length_app in E. simpl in E. lia. }
  cbn [fst]. replace (S (List.length inner) - 1) with (List.length inner) by lia.
  unfold extract_from_to.
  replace (List.length inner <? 0) with false by reflexivity.
  destruct (List.length (inner ++ rb :: post) <? List.length inner) eqn:E2.
  { apply Nat.ltb_lt in E2. rewrite length_app in E2. lia. }
  destruct inner as [|tok rest]; [reflexivity|].
  simpl.
  rewrite firstn_app, Nat.sub_diag, firstn_all, firstn_O, app_nil_r.
  rewrite skipn_app, Nat.sub_diag, skipn_all, skipn_O.
  reflexivity.
Qed.

Lemma parse_loop_app (parse_rec : list JsonToken -> Outcome JsonObject)
      (fuel : nat) (pre tokens : list JsonToken) (i : nat)
      (objects : list JsonObject) :
  parse_loop parse_rec fuel (pre ++ tokens) (List.length pre + i) objects
  = parse_loop parse_rec fuel tokens i objects.
Proof.
  induction pre as [|t pre IH]; [reflexivity|].
  simpl. rewrite parse_loop_cons. exact IH.
Qed.

(** C4.  At a name token followed by a colon token and an opening brace, the
    loop of [parse] takes the tokens up to the brace that closes that one
    out of the vector, parses them in a recursive call, and appends the
    group that call returns under the field's name; the cursor goes on
    behind the closing brace.  On the tokens of [{"a": {"b": 1}}] [parse]
    returns the root group with the one field [a], a group with the one
    field [b], a number of value 1. *)
Theorem named_group_relabelled :
  (forall (parse_rec : list JsonToken -> Outcome JsonObject) (fuel : nat)
          (pre inner post : list JsonToken)
          (name_tok colon_tok brace_tok rb : JsonToken)
          (objects fields : list JsonObject),
      type name_tok = TOK_STR_VAL ->
      type colon_tok = TOK_COLON ->
      type brace_tok = TOK_LEFT_BRACE ->
      type rb = TOK_RIGHT_BRACE ->
      encloses 1 inner = true ->
      parse_rec inner = Returned (JsonGroup ROOT fields) ->
      parse_loop parse_rec (S fuel)
                 (pre ++ name_tok :: colon_tok :: brace_tok :: inner ++ rb :: post)
                 (List.length pre) objects
      = parse_loop parse_rec fuel
                   (pre ++ name_tok :: colon_tok :: brace_tok :: rb :: post)
                   (List.length pre + 4)
                   (objects ++ [JsonGroup (content name_tok) fields]))
  /\ parse [LB; STR "a"; COLON; LB; STR "b"; COLON; NUM "1"; RB; RB]
     = Returned (JsonGroup ROOT [JsonGroup "a" [JsonNumber "b" 1]]).
Proof.
  split; [|reflexivity].
  intros parse_rec fuel pre inner post name_tok colon_tok brace_tok rb
         objects fields Hn Hc Hb Hrb Henc Hrec.
  rewrite <- (Nat.add_0_r (List.length pre)) at 1.
  rewrite !parse_loop_app.
  rewrite (parse_loop_S parse_rec fuel
             (name_tok :: colon_tok :: brace_tok :: inner ++ rb :: post)
             0 objects name_tok eq_refl).
  rewrite Hn.
  change (tok_at (name_tok :: colon_tok :: brace_tok :: inner ++ rb :: post) 1)
    with (Returned colon_tok).
  cbn [bind]. rewrite Hc. cbn [JsonTokenType_eqb negb].
  change (tok_at (name_tok :: colon_tok :: brace_tok :: inner ++ rb :: post) 2)
    with (Returned brace_tok).
  cbn [bind]. rewrite Hb.
  rewrite !group_span_cons, (group_span_encloses inner rb post Henc Hrb).
  cbn [bind option_map fst snd]. rewrite Hrec. cbn [bind].
  reflexivity.
Qed.

Lemma named_group_relabelled_witness :
  (type (STR "a") = TOK_STR_VAL /\ type COLON = TOK_COLON
   /\ type LB = TOK_LEFT_BRACE /\ type RB = TOK_RIGHT_BRACE
   /\ encloses 1 [STR "b"; COLON; NUM "1"] = true
   /\ parse [STR "b"; COLON; NUM "1"]
      = Returned (JsonGroup ROOT [JsonNumber "b" 1]))
  /\ parse_loop parse 1 [STR "a"; COLON; LB; STR "b"; COLON; NUM "1"; RB] 0 []
     = parse_loop parse 0 [STR "a"; COLON; LB; RB] 4
                  [JsonGroup "a" [JsonNumber "b" 1]].
Proof.
  split; [repeat split|].
  exact (proj1 named_group_relabelled parse 0 [] [STR "b"; COLON; NUM "1"] []
               (STR "a") COLON LB RB [] [JsonNumber "b" 1]
               eq_refl eq_refl eq_refl eq_refl eq_refl eq_refl).
Defined.

(** ** C6 *)

Lemma JsonObject_induction (P : JsonObject -> Prop) :
  (forall name fields, Forall P fields -> P (JsonGroup name fields)) ->
  (forall name value, P (JsonString name value)) ->
  (forall name number, P (JsonNumber name number)) ->
  forall object, P object.
Proof.
  intros Hgroup Hstring Hnumber.
  fix IH 1. intros [name fields|name value|name number].
  - apply Hgroup. induction fields as [|f fields IHf]; constructor.
    + apply IH.
    + exact IHf.
  - apply Hstring.
  - apply Hnumber.
Qed.

Lemma tabs_indentation (level : nat) : tabs level = RenderSpec.indentation level.
Proof.
  unfold RenderSpec.indentation.
  induction level as [|level IH]; simpl; [reflexivity | now rewrite IH].
Qed.

Lemma fields_loop_lines (render_field : JsonObject -> string)
      (fields : list JsonObject) :
  fields_loop render_field fields true
  = RenderSpec.child_lines (map render_field fields)
  /\ fields_loop render_field fields false
     = match fields with
       | [] => EmptyString
       | _ => ("," ++ str1 newline
               ++ RenderSpec.child_lines (map render_field fields))%string
       end.
Proof.
  induction fields as [|f rest [IHt IHf]]; [split; reflexivity|].
  assert (H : (render_field f
               ++ (match rest with [] => str1 newline | _ => EmptyString end)
               ++ fields_loop render_field rest false)%string
              = RenderSpec.child_lines (map render_field (f :: rest))).
  { rewrite IHf. destruct rest as [|g rest]; reflexivity. }
  split.
  - cbn [fields_loop]. rewrite H. reflexivity.
  - cbn [fields_loop]. rewrite H. now rewrite append_assoc.
Qed.

Lemma quoted_then (name rest : string) :
  (str1 dquote ++ name ++ str1 dquote ++ rest)%string
  = (quoted name ++ rest)%string.
Proof. unfold quoted. simpl. now rewrite append_assoc. Qed.

(** C6.  [to_string] produces, for every node and every indentation level,
    the text the specification of the renderer describes: a group as its
    indentation, its quoted name and a colon unless it is the root, an
    opening brace, its fields in their stored order, each one level deeper
    on a line of its own with a comma between two of them, and the closing
    brace at the indentation of the group; a string field as quoted name,
    colon, quoted value; a number field as quoted name, colon, the decimal
    number; one tab per level. *)
Theorem to_string_renders_as_specified (object : JsonObject) :
  forall indent_lvl : nat,
    to_string object indent_lvl = RenderSpec.render object indent_lvl.
Proof.
  induction object as [name fields IH|name value|name number]
    using JsonObject_induction; intro lvl.
  - cbn [to_string RenderSpec.render].
    destruct (fields_loop_lines (fun field => to_string field (S lvl)) fields)
      as [-> _].
    assert (Hmap : map (fun field => to_string field (S lvl)) fields
                   = map (fun child => RenderSpec.render child (S lvl)) fields).
    { induction IH as [|f rest Hf _ IHrest]; [reflexivity|].
      simpl. now rewrite Hf, IHrest. }
    rewrite Hmap, tabs_indentation.
    unfold RenderSpec.is_synthetic_root.
    destruct (String.eqb name ROOT); cbn [negb].
    + reflexivity.
    + rewrite quoted_then, !append_assoc. reflexivity.
  - cbn [to_string RenderSpec.render]. rewrite tabs_indentation.
    rewrite quoted_then. reflexivity.
  - cbn [to_string RenderSpec.render]. rewrite tabs_indentation.
    rewrite quoted_then. reflexivity.
Qed.

(** * More on the parser *)

(** ** [std::stoi] and the printing of an [int] *)

Lemma digits_value_uint_acc (d : Decimal.uint) :
  forall acc : positive,
    digits_value (NilEmpty.string_of_uint d) (Z.pos acc)
    = Z.pos (Pos.of_uint_acc d acc).
Proof.
  induction d as [|d IH|d IH|d IH|d IH|d IH|d IH|d IH|d IH|d IH|d IH];
    intro acc; [reflexivity|..];
    cbn [NilEmpty.string_of_uint digits_value Pos.of_uint_acc];
    match goal with
    | |- context [is_digit ?c] => change (is_digit c) with true
    end;
    cbv iota; rewrite <- IH; f_equal;
    match goal with
    | |- context [digit_value ?c] =>
        let v := eval vm_compute in (digit_value c) in
        change (digit_value c) with v
    end; lia.
Qed.

Lemma digits_value_uint (d : Decimal.uint) :
  digits_value (NilEmpty.string_of_uint d) 0 = Z.of_N (Pos.of_uint d).
Proof.
  induction d as [|d IH|d IH|d IH|d IH|d IH|d IH|d IH|d IH|d IH|d IH];
    [reflexivity| exact IH |..];
    cbn [NilEmpty.string_of_uint digits_value Pos.of_uint];
    match goal with
    | |- context [is_digit ?c] => change (is_digit c) with true
    end;
    cbv iota; cbn [Z.of_N]; rewrite <- digits_value_uint_acc; reflexivity.
Qed.

Lemma string_of_uint_head (d : Decimal.uint) :
  d <> Decimal.Nil ->
  exists c rest,
    NilEmpty.string_of_uint d = String c rest
    /\ is_digit c = true /\ is_cspace c = false
    /\ Ascii.eqb c "-" = false /\ Ascii.eqb c "+" = false.
Proof.
  destruct d; intro H; [contradiction|..]; simpl;
    eexists; eexists; repeat split.
Qed.

Lemma stoi_unsigned_uint (negative : bool) (p : positive) :
  stoi_unsigned negative (NilEmpty.string_of_uint (Pos.to_uint p))
  = if ((INT_MIN <=? (if negative then Z.neg p else Z.pos p))
        && ((if negative then Z.neg p else Z.pos p) <=? INT_MAX))%Z%bool
    then Returned (if negative then Z.neg p else Z.pos p)
    else Crash StoiOutOfRange.
Proof.
  unfold stoi_unsigned.
  rewrite digits_value_uint, DecimalPos.Unsigned.of_to.
  destruct (string_of_uint_head (Pos.to_uint p)
              (DecimalPos.Unsigned.to_uint_nonnil p))
    as (c & rest & Hs & Hd & _).
  rewrite Hs, Hd. cbn [Z.of_N]. destruct negative; reflexivity.
Qed.

Lemma nilzero_nonnil (d : Decimal.uint) :
  d <> Decimal.Nil -> NilZero.string_of_uint d = NilEmpty.string_of_uint d.
Proof. destruct d; [contradiction | reflexivity..]. Qed.

Lemma stoi_print_int_outcome (number : Z) :
  stoi (print_int number)
  = if ((INT_MIN <=? number) && (number <=? INT_MAX))%Z%bool
    then Returned number else Crash StoiOutOfRange.
Proof.
  unfold print_int, stoi.
  destruct number as [|p|p]; [reflexivity|..];
    cbn [Z.to_int NilZero.string_of_int];
    rewrite (nilzero_nonnil _ (DecimalPos.Unsigned.to_uint_nonnil p));
    destruct (string_of_uint_head (Pos.to_uint p)
                (DecimalPos.Unsigned.to_uint_nonnil p))
      as (c & rest & Hs & Hd & Hsp & Hm & Hpl).
  - rewrite Hs. cbn [skip_cspace]. rewrite Hsp.
    destruct c as [b0 b1 b2 b3 b4 b5 b6 b7].
    destruct b0, b1, b2, b3, b4, b5, b6, b7; try discriminate Hd;
      rewrite <- Hs; apply (stoi_unsigned_uint false).
  - cbn [skip_cspace]. change (is_cspace "-") with false. cbv iota.
    apply (stoi_unsigned_uint true).
Qed.


(** ** The recursion of [parse] without its fuel *)

Lemma parse_fuel_root (fuel : nat) (tokens : list JsonToken) (object : JsonObject) :
  parse_fuel fuel tokens = Returned object ->
  exists fields, object = JsonGroup ROOT fields.
Proof.
  destruct fuel as [|fuel]; [discriminate|]. simpl.
  destruct (parse_loop (parse_fuel fuel) (List.length tokens) tokens 0 [])
    as [objects| | |]; simpl; try discriminate.
  intro H. injection H as <-.
  destruct objects as [|[name fields|name value|name number] [|o2 rest]];
    simpl; eauto.
  destruct (String.eqb_spec name ROOT) as [->|Hn]; eauto.
Qed.

Lemma parse_unfold (tokens : list JsonToken) :
  parse tokens
  = (objects <- parse_loop parse (List.length tokens) tokens 0 [] ;;
     Returned (root_unwrap objects)).
Proof.
  unfold parse at 1. cbn [parse_fuel].
  rewrite (parse_loop_ext (parse_fuel (List.length tokens)) parse);
    [reflexivity|].
  intros l Hl. apply parse_fuel_stable; lia.
Qed.

Lemma root_unwrap_root (fields : list JsonObject) :
  root_unwrap [JsonGroup ROOT fields] = JsonGroup ROOT fields.
Proof. reflexivity. Qed.

(** ** Braces around a sequence *)

Lemma parse_braced (lb rb : JsonToken) (inner : list JsonToken) :
  type lb = TOK_LEFT_BRACE ->
  type rb = TOK_RIGHT_BRACE ->
  encloses 1 inner = true ->
  parse (lb :: inner ++ [rb]) = parse inner.
Proof.
  intros Hlb Hrb Henc. rewrite parse_unfold.
  cbn [List.length].
  rewrite (parse_loop_S parse _ (lb :: inner ++ [rb]) 0 [] lb eq_refl), Hlb.
  rewrite group_span_cons, (group_span_encloses inner rb [] Henc Hrb).
  cbn [bind option_map fst snd].
  destruct (parse inner) as [object| | |] eqn:Hp; cbn [bind]; try reflexivity.
  rewrite parse_loop_done by (simpl; lia). cbn [bind app].
  destruct (parse_fuel_root _ _ _ Hp) as (fields & ->). reflexivity.
Qed.

(** ** Fields that are cut short or malformed *)

(** X5.  A field that is cut short or malformed at the front of the vector. A
    name token alone, or a name and a colon alone, make [parse] read behind the
    end of the vector; a name followed by anything but a colon makes it return
    no object with the expected-colon message; a colon, a comma or a closing
    brace as the value fails the assertion; a number token that [std::stoi]
    throws on ends the call with that exception. *)
Theorem malformed_field_outcomes (name_tok : JsonToken) :
  type name_tok = TOK_STR_VAL ->
  parse [name_tok] = Crash OutOfBoundsRead
  /\ (forall (t : JsonToken) (rest : list JsonToken),
         type t <> TOK_COLON ->
         parse (name_tok :: t :: rest) = Nullopt ExpectedColon)
  /\ (forall colon_tok : JsonToken,
         type colon_tok = TOK_COLON ->
         parse [name_tok; colon_tok] = Crash OutOfBoundsRead
         /\ (forall (v : JsonToken) (rest : list JsonToken),
                is_stray (type v) = true -> type v <> TOK_NUMBER ->
                parse (name_tok :: colon_tok :: v :: rest)
                = Crash AssertionFailed)
         /\ (forall (v : JsonToken) (rest : list JsonToken) (f : Fault),
                type v = TOK_NUMBER -> stoi (content v) = Crash f ->
                parse (name_tok :: colon_tok :: v :: rest) = Crash f)).
Proof.
  intro Hn. split; [|split].
  - rewrite parse_unfold. cbn [List.length].
    rewrite (parse_loop_S parse _ [name_tok] 0 [] name_tok eq_refl), Hn.
    reflexivity.
  - intros t rest Ht. rewrite parse_unfold. cbn [List.length].
    rewrite (parse_loop_S parse _ (name_tok :: t :: rest) 0 [] name_tok eq_refl),
      Hn.
    change (tok_at (name_tok :: t :: rest) 1) with (Returned t).
    cbn [bind]. destruct (type t); try reflexivity. contradiction.
  - intros colon_tok Hc. split; [|split].
    + rewrite parse_unfold. cbn [List.length].
      rewrite (parse_loop_S parse _ [name_tok; colon_tok] 0 [] name_tok eq_refl),
        Hn.
      change (tok_at [name_tok; colon_tok] 1) with (Returned colon_tok).
      cbn [bind]. rewrite Hc. reflexivity.
    + intros v rest Hs Hv. rewrite parse_unfold. cbn [List.length].
      rewrite (parse_loop_S parse _ (name_tok :: colon_tok :: v :: rest) 0 []
                            name_tok eq_refl), Hn.
      change (tok_at (name_tok :: colon_tok :: v :: rest) 1)
        with (Returned colon_tok).
      cbn [bind]. rewrite Hc. cbn [JsonTokenType_eqb negb].
      change (tok_at (name_tok :: colon_tok :: v :: rest) 2) with (Returned v).
      cbn [bind]. destruct (type v); try reflexivity; try discriminate.
      contradiction.
    + intros v rest f Hv Hst. rewrite parse_unfold. cbn [List.length].
      rewrite (parse_loop_S parse _ (name_tok :: colon_tok :: v :: rest) 0 []
                            name_tok eq_refl), Hn.
      change (tok_at (name_tok :: colon_tok :: v :: rest) 1)
        with (Returned colon_tok).
      cbn [bind]. rewrite Hc. cbn [JsonTokenType_eqb negb].
      change (tok_at (name_tok :: colon_tok :: v :: rest) 2) with (Returned v).
      cbn [bind]. rewrite Hv, Hst. reflexivity.
Qed.

(** ** The double-naming failure *)

Lemma tok_at_outcome (tokens : list JsonToken) (i : nat) :
  (exists tok, tok_at tokens i = Returned tok)
  \/ tok_at tokens i = Crash OutOfBoundsRead.
Proof. unfold tok_at. destruct (nth_error tokens i); eauto. Qed.

Lemma stoi_outcome (str : string) :
  (exists v, stoi str = Returned v) \/ (exists f, stoi str = Crash f).
Proof.
  unfold stoi, stoi_unsigned.
  repeat match goal with
         | |- context [match ?x with _ => _ end] => destruct x
         end; eauto.
Qed.

Lemma parse_loop_no_double_naming
      (parse_rec : list JsonToken -> Outcome JsonObject) (fuel : nat) :
  (forall l, parse_rec l <> Nullopt DoubleNaming) ->
  (forall l object, parse_rec l = Returned object ->
                    exists fields, object = JsonGroup ROOT fields) ->
  forall (tokens : list JsonToken) (i : nat) (objects : list JsonObject),
    parse_loop parse_rec fuel tokens i objects <> Nullopt DoubleNaming.
Proof.
  intros Hrec Hroot.
  induction fuel as [|fuel IH]; intros tokens i objects.
  - simpl. destruct (List.length tokens <=? i); discriminate.
  - destruct (nth_error tokens i) as [tok|] eqn:Ht.
    2:{ apply nth_error_None in Ht. rewrite parse_loop_done by lia.
        discriminate. }
    rewrite (parse_loop_S _ _ _ _ _ _ Ht).
    destruct (type tok); try apply IH.
    + destruct (group_span_returns tokens (S i)) as ([[g t1]|] & ->);
        cbn [bind]; try discriminate.
      specialize (Hrec g).
      destruct (parse_rec g) as [o|e| |]; cbn [bind]; try discriminate;
        [apply IH|].
      intro H. apply Hrec. injection H as ->. reflexivity.
    + destruct (tok_at_outcome tokens (S i)) as [(tok1 & ->) | ->];
        cbn [bind]; try discriminate.
      destruct (negb _); [discriminate|].
      destruct (tok_at_outcome tokens (S (S i))) as [(tok2 & ->) | ->];
        cbn [bind]; try discriminate.
      destruct (type tok2); try discriminate; try apply IH.
      * destruct (group_span_returns tokens (S (S (S i)))) as ([[g t1]|] & ->);
          cbn [bind]; try discriminate.
        specialize (Hrec g). specialize (Hroot g).
        destruct (parse_rec g) as [o|e| |]; cbn [bind]; try discriminate.
        -- destruct (Hroot o eq_refl) as (fields & ->).
           rewrite String.eqb_refl. cbn [negb]. apply IH.
        -- intro H. apply Hrec. injection H as ->. reflexivity.
      * destruct (stoi_outcome (content tok2)) as [(v & ->) | (f & ->)];
          cbn [bind]; [apply IH | discriminate].
Qed.

Lemma parse_fuel_no_double_naming (fuel : nat) :
  forall tokens, parse_fuel fuel tokens <> Nullopt DoubleNaming.
Proof.
  induction fuel as [|fuel IH]; intro tokens; [discriminate|].
  cbn [parse_fuel].
  pose proof (parse_loop_no_double_naming (parse_fuel fuel)
                (List.length tokens) IH (parse_fuel_root fuel) tokens 0 [])
    as Hloop.
  destruct (parse_loop (parse_fuel fuel) (List.length tokens) tokens 0 [])
    as [o|e| |]; cbn [bind]; try discriminate.
  intro H. apply Hloop. injection H as ->. reflexivity.
Qed.

(** X6.  The only message with which [parse] ever returns no object of its own
    accord is the expected-colon one: the double-naming test can never fail,
    since every recursive call returns a group named by the root marker, and
    nothing reports unbalanced braces. *)
Theorem only_expected_colon_is_reported (tokens : list JsonToken)
        (e : ParseError) :
  parse tokens = Nullopt e -> e = ExpectedColon.
Proof.
  intro H. destruct e; [reflexivity|].
  exfalso. exact (parse_fuel_no_double_naming _ _ H).
Qed.

(** ** [extract_from_to] *)

(** X7.  [extract_from_to]. Outside [from <= to <= tokens.size()] an assertion
    fails. Inside, the extraction holds the [to - from] tokens from position
    [from] on, in their order, and putting it back at position [from] of what is
    left gives the vector as it was. *)
Theorem extract_from_to_splice (tokens : list JsonToken) (from to : nat) :
  (to < from \/ List.length tokens < to ->
   extract_from_to tokens from to = Crash AssertionFailed)
  /\ (from <= to <= List.length tokens ->
      exists extraction rest,
        extract_from_to tokens from to = Returned (extraction, rest)
        /\ List.length extraction = to - from
        /\ tokens = firstn from rest ++ extraction ++ skipn from rest
        /\ (forall k, k < to - from ->
                      nth_error extraction k = nth_error tokens (from + k))).
Proof.
  unfold extract_from_to. split.
  - intros [H|H].
    + apply Nat.ltb_lt in H. now rewrite H.
    + destruct (to <? from); [reflexivity|].
      apply Nat.ltb_lt in H. now rewrite H.
  - intros [H1 H2].
    destruct (to <? from) eqn:E1; [apply Nat.ltb_lt in E1; lia|].
    destruct (List.length tokens <? to) eqn:E2; [apply Nat.ltb_lt in E2; lia|].
    destruct (to =? from) eqn:E3.
    + apply Nat.eqb_eq in E3. subst to.
      exists [], tokens. repeat split.
      * simpl. lia.
      * simpl. now rewrite firstn_skipn.
      * intros k Hk. lia.
    + exists (firstn (to - from) (skipn from tokens)),
        (firstn from tokens ++ skipn to tokens).
      apply Nat.eqb_neq in E3.
      assert (Hf : List.length (firstn from tokens) = from)
        by (rewrite length_firstn; lia).
      repeat split.
      * rewrite length_firstn, length_skipn. lia.
      * rewrite firstn_app, Hf, Nat.sub_diag, firstn_O, app_nil_r.
        rewrite (@firstn_all2 _ from (firstn from tokens)) by lia.
        rewrite skipn_app, Hf, Nat.sub_diag, skipn_O.
        rewrite (@skipn_all2 _ from (firstn from tokens)) by lia. cbn [app].
        rewrite <- (firstn_skipn from tokens) at 1. f_equal.
        rewrite <- (firstn_skipn (to - from) (skipn from tokens)) at 1.
        f_equal. rewrite skipn_skipn. f_equal. lia.
      * intros k Hk. rewrite nth_error_firstn.
        destruct (k <? to - from) eqn:Ek; [|apply Nat.ltb_ge in Ek; lia].
        rewrite nth_error_skipn. reflexivity.
Qed.

(** ** Token sequences that spell a tree *)

Lemma encloses_cons_plain (d : Z) (tok : JsonToken) (l : list JsonToken) :
  (0 < d)%Z ->
  type tok <> TOK_LEFT_BRACE -> type tok <> TOK_RIGHT_BRACE ->
  encloses d (tok :: l) = encloses d l.
Proof.
  intros Hd H1 H2. cbn [encloses].
  apply Z.ltb_lt in Hd. rewrite Hd.
  destruct (type tok); try reflexivity; contradiction.
Qed.

Lemma encloses_braced (d : Z) (inner l : list JsonToken) :
  (0 < d)%Z ->
  (forall d' l', (0 < d')%Z -> encloses d' (inner ++ l') = encloses d' l') ->
  encloses d (LB :: inner ++ RB :: l) = encloses d l.
Proof.
  intros Hd Hin. cbn [encloses type LB].
  rewrite Hin by lia. cbn [encloses type RB].
  replace (d + 1 - 1)%Z with d by lia.
  assert (H1 : (0 <? d)%Z = true) by (apply Z.ltb_lt; lia).
  assert (H2 : (0 <? d + 1)%Z = true) by (apply Z.ltb_lt; lia).
  now rewrite H1, H2.
Qed.

Lemma members_tokens_one (sp : Spelling) (f : JsonObject) :
  members_tokens sp [f] = member_tokens sp f.
Proof. reflexivity. Qed.

Lemma members_tokens_more (sp : Spelling) (f g : JsonObject)
      (rest : list JsonObject) :
  members_tokens sp (f :: g :: rest)
  = member_tokens sp f ++ (if comma_after sp f then [COMMA] else [])
                  ++ members_tokens sp (g :: rest).
Proof. reflexivity. Qed.

Lemma join_members_neutral (sp : Spelling) (fields : list JsonObject) :
  Forall (fun f => neutral (member_tokens sp f)) fields ->
  neutral (members_tokens sp fields).
Proof.
  induction 1 as [|f rest Hf Hrest IH]; intros d l Hd; [reflexivity|].
  destruct rest as [|g rest].
  - rewrite members_tokens_one. apply Hf; exact Hd.
  - rewrite members_tokens_more, <- !app_assoc, Hf by exact Hd.
    destruct (comma_after sp f); cbn [app].
    + rewrite encloses_cons_plain by (try exact Hd; discriminate).
      apply IH; exact Hd.
    + apply IH; exact Hd.
Qed.

Lemma member_tokens_neutral (sp : Spelling) (object : JsonObject) :
  neutral (member_tokens sp object).
Proof.
  induction object as [name fields IH|name value|name number]
    using JsonObject_induction; intros d l Hd; cbn [member_tokens app].
  - rewrite !encloses_cons_plain by (try exact Hd; discriminate).
    rewrite <- app_assoc. cbn [app].
    apply encloses_braced; [exact Hd|].
    apply (join_members_neutral sp fields IH).
  - now rewrite !encloses_cons_plain by (try exact Hd; discriminate).
  - now rewrite !encloses_cons_plain by (try exact Hd; discriminate).
Qed.

Lemma members_tokens_enclosed (sp : Spelling) (fields : list JsonObject) :
  encloses 1 (members_tokens sp fields) = true.
Proof.
  rewrite <- (app_nil_r (members_tokens sp fields)).
  rewrite join_members_neutral; [reflexivity | | lia].
  apply Forall_forall. intros f _. apply member_tokens_neutral.
Qed.

Lemma members_loop (sp : Spelling) (fields : list JsonObject) :
  Forall (field_step sp) fields ->
  forall (n : nat) (objects : list JsonObject),
    List.length (members_tokens sp fields) <= n ->
    parse_loop parse n (members_tokens sp fields) 0 objects
    = Returned (objects ++ fields).
Proof.
  induction 1 as [|f rest Hf Hrest IH]; intros n objects Hn.
  - rewrite parse_loop_done by (simpl; lia). now rewrite app_nil_r.
  - assert (Hlen : 3 <= List.length (member_tokens sp f))
      by (destruct f; simpl; lia).
    destruct rest as [|g rest].
    + rewrite members_tokens_one in *.
      destruct n as [|n]; [lia|].
      rewrite <- (app_nil_r (member_tokens sp f)), Hf.
      rewrite parse_loop_done by (simpl; lia).
      reflexivity.
    + rewrite members_tokens_more in *.
      rewrite !length_app in Hn.
      destruct n as [|n]; [lia|]. rewrite Hf.
      destruct (comma_after sp f); cbn [app List.length] in *.
      * destruct n as [|n]; [lia|].
        rewrite (parse_loop_S parse n (COMMA :: members_tokens sp (g :: rest))
                              0 _ COMMA eq_refl).
        cbn [type COMMA].
        rewrite parse_loop_cons, IH by lia.
        now rewrite <- app_assoc.
      * rewrite IH by lia. now rewrite <- app_assoc.
Qed.

Lemma root_unwrap_parseable (fields : list JsonObject) :
  forallb parseable fields = true ->
  root_unwrap fields = JsonGroup ROOT fields.
Proof.
  destruct fields as [|[name children|name value|name number] [|g rest]];
    try reflexivity.
  cbn [forallb parseable]. intro H.
  apply andb_true_iff in H as [H _]. apply andb_true_iff in H as [H _].
  cbn [root_unwrap]. apply negb_true_iff in H. now rewrite H.
Qed.

Lemma parse_members (sp : Spelling) (fields : list JsonObject) :
  Forall (field_step sp) fields ->
  forallb parseable fields = true ->
  parse (members_tokens sp fields) = Returned (JsonGroup ROOT fields).
Proof.
  intros Hsteps Hp. rewrite parse_unfold.
  rewrite (members_loop sp fields Hsteps) by lia.
  cbn [bind app]. now rewrite root_unwrap_parseable.
Qed.

Lemma group_field_step (sp : Spelling) (name : string)
      (fields : list JsonObject) :
  Forall (field_step sp) fields ->
  forallb parseable fields = true ->
  field_step sp (JsonGroup name fields).
Proof.
  intros Hsteps Hp n tail objects. cbn [member_tokens app].
  change (join_members sp (map (fun f => (f, member_tokens sp f)) fields))
    with (members_tokens sp fields).
  rewrite <- app_assoc. cbn [app].
  rewrite (parse_loop_S parse n
             (STR name :: COLON :: LB
                  :: members_tokens sp fields ++ RB :: tail)
             0 objects (STR name) eq_refl).
  cbn [type STR content].
  change (tok_at (STR name :: COLON :: LB
                      :: members_tokens sp fields ++ RB :: tail) 1)
    with (Returned COLON).
  cbn [bind type COLON JsonTokenType_eqb negb].
  change (tok_at (STR name :: COLON :: LB
                      :: members_tokens sp fields ++ RB :: tail) 2)
    with (Returned LB).
  cbn [bind type LB].
  rewrite !group_span_cons.
  rewrite (group_span_encloses _ RB tail (members_tokens_enclosed sp fields)
                               eq_refl).
  cbn [bind option_map fst snd].
  rewrite (parse_members sp fields Hsteps Hp). cbn [bind].
  rewrite String.eqb_refl. cbn [negb].
  now rewrite !parse_loop_cons.
Qed.

Lemma field_steps (sp : Spelling) :
  (forall n, (INT_MIN <= n <= INT_MAX)%Z ->
             stoi (number_text sp n) = Returned n) ->
  forall object, parseable object = true -> field_step sp object.
Proof.
  intro Hnum.
  induction object as [name fields IH|name value|name number]
    using JsonObject_induction; intro Hp.
  - cbn [parseable] in Hp. apply andb_true_iff in Hp as [_ Hp].
    apply group_field_step; [|exact Hp].
    apply Forall_forall. intros f Hf.
    rewrite Forall_forall in IH. apply IH; [exact Hf|].
    rewrite forallb_forall in Hp. now apply Hp.
  - intros n tail objects. cbn [member_tokens app].
    rewrite (parse_loop_S parse n (STR name :: COLON :: STR value :: tail)
                          0 objects (STR name) eq_refl).
    cbn [type STR content].
    change (tok_at (STR name :: COLON :: STR value :: tail) 1)
      with (Returned COLON).
    cbn [bind type COLON JsonTokenType_eqb negb].
    change (tok_at (STR name :: COLON :: STR value :: tail) 2)
      with (Returned (STR value)).
    cbn [bind type STR content].
    now rewrite !parse_loop_cons.
  - intros n tail objects. cbn [member_tokens app].
    rewrite (parse_loop_S parse n
               (STR name :: COLON :: NUM (number_text sp number) :: tail)
               0 objects (STR name) eq_refl).
    cbn [type STR content].
    change (tok_at (STR name :: COLON :: NUM (number_text sp number) :: tail) 1)
      with (Returned COLON).
    cbn [bind type COLON JsonTokenType_eqb negb].
    change (tok_at (STR name :: COLON :: NUM (number_text sp number) :: tail) 2)
      with (Returned (NUM (number_text sp number))).
    cbn [bind type NUM content].
    cbn [parseable] in Hp. apply andb_true_iff in Hp as [H1 H2].
    apply Z.leb_le in H1, H2.
    rewrite (Hnum number (conj H1 H2)). cbn [bind].
    now rewrite !parse_loop_cons.
Qed.

Lemma all_field_steps (sp : Spelling) (fields : list JsonObject) :
  (forall n, (INT_MIN <= n <= INT_MAX)%Z ->
             stoi (number_text sp n) = Returned n) ->
  forallb parseable fields = true ->
  Forall (field_step sp) fields.
Proof.
  intros Hnum Hp. apply Forall_forall. intros f Hf.
  apply field_steps; [exact Hnum|].
  rewrite forallb_forall in Hp. now apply Hp.
Qed.

Lemma parse_document (sp : Spelling) (fields : list JsonObject) :
  (forall n, (INT_MIN <= n <= INT_MAX)%Z ->
             stoi (number_text sp n) = Returned n) ->
  forallb parseable fields = true ->
  parse (document_tokens sp fields) = Returned (JsonGroup ROOT fields).
Proof.
  intros Hnum Hp. unfold document_tokens.
  rewrite (parse_braced LB RB _ eq_refl eq_refl
                        (members_tokens_enclosed sp fields)).
  apply parse_members; [|exact Hp]. now apply all_field_steps.
Qed.

Lemma plain_spelling_numbers (n : Z) :
  (INT_MIN <= n <= INT_MAX)%Z -> stoi (number_text plain_spelling n) = Returned n.
Proof.
  intros [H1 H2]. cbn [number_text plain_spelling].
  rewrite stoi_print_int_outcome.
  apply Z.leb_le in H1, H2. now rewrite H1, H2.
Qed.

(** ** [parse] on the tokens of a tree *)


(** X2.  A pair of braces around a sequence whose braces are balanced changes
    nothing in what [parse] does: the same object, the same failure. *)
Theorem outer_braces_transparent (lb rb : JsonToken) (inner : list JsonToken) :
  type lb = TOK_LEFT_BRACE ->
  type rb = TOK_RIGHT_BRACE ->
  encloses 1 inner = true ->
  parse (lb :: inner ++ [rb]) = parse inner.
Proof. apply parse_braced. Qed.

Lemma outer_braces_transparent_witness :
  (type LB = TOK_LEFT_BRACE /\ type RB = TOK_RIGHT_BRACE
   /\ encloses 1 [LB; STR "a"; COLON; NUM "1"; RB] = true)
  /\ parse (LB :: [LB; STR "a"; COLON; NUM "1"; RB] ++ [RB])
     = parse [LB; STR "a"; COLON; NUM "1"; RB].
Proof.
  split; [repeat split|].
  exact (outer_braces_transparent LB RB [LB; STR "a"; COLON; NUM "1"; RB]
                                  eq_refl eq_refl eq_refl).
Defined.

(** X3.  [parse] gives back the tree from the tokens that spell it, whatever the
    texts of the number tokens that [std::stoi] reads as the numbers and
    wherever commas stand between fields, as long as no group is named by the
    root marker and every number is an [int]. *)
Theorem parse_spelled_document (sp : Spelling) (fields : list JsonObject) :
  (forall n, (INT_MIN <= n <= INT_MAX)%Z ->
             stoi (number_text sp n) = Returned n) ->
  forallb parseable fields = true ->
  parse (document_tokens sp fields) = Returned (JsonGroup ROOT fields)
  /\ parse (members_tokens sp fields) = Returned (JsonGroup ROOT fields).
Proof.
  intros Hnum Hp. split.
  - now apply parse_document.
  - apply parse_members; [|exact Hp]. now apply all_field_steps.
Qed.

Lemma parse_spelled_document_witness :
  ((forall n, (INT_MIN <= n <= INT_MAX)%Z ->
              stoi (number_text plain_spelling n) = Returned n)
   /\ forallb parseable
              [JsonGroup "a" [JsonNumber "b" 1; JsonString "c" "x"];
               JsonNumber "d" (-2)] = true)
  /\ document_tokens plain_spelling
                     [JsonGroup "a" [JsonNumber "b" 1; JsonString "c" "x"];
                      JsonNumber "d" (-2)]
     = [LB; STR "a"; COLON; LB; STR "b"; COLON; NUM "1"; COMMA;
        STR "c"; COLON; STR "x"; RB; COMMA; STR "d"; COLON; NUM "-2"; RB]
  /\ parse [LB; STR "a"; COLON; LB; STR "b"; COLON; NUM "1"; COMMA;
            STR "c"; COLON; STR "x"; RB; COMMA; STR "d"; COLON; NUM "-2"; RB]
     = Returned (JsonGroup ROOT
                   [JsonGroup "a" [JsonNumber "b" 1; JsonString "c" "x"];
                    JsonNumber "d" (-2)]).
Proof.
  split; [split; [exact plain_spelling_numbers | reflexivity]|].
  split; [reflexivity|].
  exact (proj1 (parse_spelled_document plain_spelling
                  [JsonGroup "a" [JsonNumber "b" 1; JsonString "c" "x"];
                   JsonNumber "d" (-2)]
                  plain_spelling_numbers eq_refl)).
Defined.

(** X4.  The root marker as a field's name: a group of that name that is the
    only field of its parent is taken for the parent itself, so that the
    document parses to the same tree as the document of the group's own fields. *)
Theorem root_named_group_vanishes (sp : Spelling) (fields : list JsonObject) :
  (forall n, (INT_MIN <= n <= INT_MAX)%Z ->
             stoi (number_text sp n) = Returned n) ->
  forallb parseable fields = true ->
  parse (document_tokens sp [JsonGroup ROOT fields])
  = Returned (JsonGroup ROOT fields)
  /\ parse (document_tokens sp [JsonGroup ROOT fields])
     = parse (document_tokens sp fields).
Proof.
  intros Hnum Hp.
  assert (H : parse (document_tokens sp [JsonGroup ROOT fields])
              = Returned (JsonGroup ROOT fields)).
  { unfold document_tokens.
    rewrite (parse_braced LB RB _ eq_refl eq_refl
                          (members_tokens_enclosed sp [JsonGroup ROOT fields])).
    rewrite parse_unfold, members_tokens_one.
    pose proof (group_field_step sp ROOT fields
                  (all_field_steps sp fields Hnum Hp) Hp) as Hstep.
    assert (Hlen : exists n, List.length (member_tokens sp (JsonGroup ROOT fields))
                             = S n)
      by (simpl; eauto).
    destruct Hlen as (n & ->).
    rewrite <- (app_nil_r (member_tokens sp (JsonGroup ROOT fields))) at 1.
    rewrite Hstep. rewrite parse_loop_done by (simpl; lia).
    reflexivity. }
  split; [exact H|]. rewrite H. symmetry. now apply parse_document.
Qed.

Lemma root_named_group_vanishes_witness :
  ((forall n, (INT_MIN <= n <= INT_MAX)%Z ->
              stoi (number_text plain_spelling n) = Returned n)
   /\ forallb parseable [JsonNumber "x" 1] = true)
  /\ parse [LB; STR ROOT; COLON; LB; STR "x"; COLON; NUM "1"; RB; RB]
     = Returned (JsonGroup ROOT [JsonNumber "x" 1]).
Proof.
  split; [split; [exact plain_spelling_numbers | reflexivity]|].
  exact (proj1 (root_named_group_vanishes plain_spelling [JsonNumber "x" 1]
                  plain_spelling_numbers eq_refl)).
Defined.

(** * More on the tokenizer *)

(** ** Where [start] stands *)

(** At the head of every iteration [start] is one behind [end] (or on it, at
    the very first character); scanning [pre ++ suf] reaches the first
    character of [suf] in that state. *)
Lemma scan_loop_prefix_start (fuel : nat) :
  forall (pre suf : string) (e : nat) (tokens tokens' : list JsonToken),
    e <= String.length pre ->
    scan_loop fuel pre (pred e) e tokens = Some (Tokens tokens') ->
    forall k r,
      scan_loop k (pre ++ suf) (pred (String.length pre)) (String.length pre)
                tokens' = Some r ->
      scan_loop (fuel + k) (pre ++ suf) (pred e) e tokens = Some r.
Proof.
  induction fuel as [|fuel IH]; intros pre suf e tokens tokens' Hle H k r Hr.
  - simpl in H. destruct (get e pre) eqn:Hc; [discriminate|].
    inversion H; subst. apply get_none in Hc.
    assert (e = String.length pre) by lia; subst. exact Hr.
  - destruct (get e pre) as [c|] eqn:Hc.
    2:{ rewrite scan_loop_end in H by assumption. inversion H; subst.
        apply get_none in Hc.
        assert (e = String.length pre) by lia; subst.
        replace (S fuel + k) with (k + S fuel) by lia.
        now apply scan_loop_more_fuel. }
    pose proof (get_lt _ _ _ Hc) as Hlt.
    assert (Hc' : get e (pre ++ suf) = Some c) by (rewrite get_app_l; assumption).
    rewrite (scan_loop_S _ _ _ _ _ _ Hc) in H.
    change (S fuel + k) with (S (fuel + k)).
    rewrite (scan_loop_S _ _ _ _ _ _ Hc').
    assert (Hstep : forall toks1,
               scan_loop fuel pre e (S e) toks1 = Some (Tokens tokens') ->
               scan_loop (fuel + k) (pre ++ suf) e (S e) toks1 = Some r).
    { intros toks1 H1.
      apply (IH pre suf (S e) toks1 tokens'); [lia | exact H1 | exact Hr]. }
    destruct (is_space c); [now apply Hstep|].
    destruct (Ascii.eqb c "{"); [now apply Hstep|].
    destruct (Ascii.eqb c "}"); [now apply Hstep|].
    destruct (Ascii.eqb c ":"); [now apply Hstep|].
    destruct (Ascii.eqb c ","); [now apply Hstep|].
    destruct (Ascii.eqb c dquote).
    { cbv zeta in *.
      destruct (get (advance_while not_quote pre (String.length pre - S e) (S e))
                    pre) as [c2|] eqn:Hc2; [|discriminate].
      pose proof (advance_while_prefix not_quote pre suf (S e) c2 Hc2) as Hadv.
      pose proof (get_lt _ _ _ Hc2) as Hlt2.
      destruct (advance_while_spec not_quote pre (String.length pre - S e) (S e))
        as (Hge & _).
      rewrite Hadv, get_app_l, Hc2 by assumption.
      unfold substr in *. rewrite substring_app_l by lia.
      apply (IH pre suf (S (advance_while not_quote pre
                                           (String.length pre - S e) (S e)))
                _ tokens'); [lia | exact H | exact Hr]. }
    destruct (is_digit c); [|discriminate].
    cbv zeta in *.
    destruct (get (advance_while is_digit pre (String.length pre - S e) (S e))
                  pre) as [c2|] eqn:Hc2; [|discriminate].
    pose proof (advance_while_prefix is_digit pre suf (S e) c2 Hc2) as Hadv.
    pose proof (get_lt _ _ _ Hc2) as Hlt2.
    destruct (advance_while_spec is_digit pre (String.length pre - S e) (S e))
      as (Hge & _).
    rewrite Hadv, get_app_l, Hc2 by assumption.
    unfold substr in *. rewrite substring_app_l by lia.
    apply (IH pre suf (S (advance_while is_digit pre
                                         (String.length pre - S e) (S e)))
              _ tokens'); [lia | exact H | exact Hr].
Qed.

Lemma scan_after (pre suf : string) (tokens : list JsonToken) :
  scan pre = Some (Tokens tokens) ->
  scan (pre ++ suf)
  = scan_loop (String.length suf) (pre ++ suf) (pred (String.length pre))
              (String.length pre) tokens.
Proof.
  intro H. unfold scan in *.
  destruct (scan_loop_total (String.length suf) (pre ++ suf)
                            (pred (String.length pre))
                            (String.length pre) tokens) as (r & Hr).
  { rewrite append_length. lia. }
  rewrite Hr, append_length.
  exact (scan_loop_prefix_start (String.length pre) pre suf 0 [] tokens
                                (Nat.le_0_l _) H _ _ Hr).
Qed.

(** ** Scanning one more piece of text *)

Lemma scan_loop_at_end (fuel : nat) (pre : string) (c : ascii) (start : nat)
      (tokens : list JsonToken) :
  scan_loop fuel (pre ++ str1 c) start (S (String.length pre)) tokens
  = Some (Tokens tokens).
Proof. apply scan_loop_end, get_none. rewrite length_snoc. lia. Qed.

Lemma scan_snoc_single (pre : string) (tokens ts : list JsonToken) (c : ascii) :
  scan pre = Some (Tokens tokens) ->
  single_token c = Some ts ->
  scan (pre ++ str1 c) = Some (Tokens (tokens ++ ts)).
Proof.
  intros Hpre Hc. rewrite (scan_after pre (str1 c) tokens Hpre).
  cbn [String.length str1].
  rewrite (scan_loop_S _ _ _ _ _ _ (get_first_after pre EmptyString c)).
  unfold single_token in Hc.
  destruct (is_space c).
  { injection Hc as <-. rewrite app_nil_r. apply scan_loop_at_end. }
  destruct (Ascii.eqb c "{").
  { injection Hc as <-. apply scan_loop_at_end. }
  destruct (Ascii.eqb c "}").
  { injection Hc as <-. apply scan_loop_at_end. }
  destruct (Ascii.eqb c ":").
  { injection Hc as <-. apply scan_loop_at_end. }
  destruct (Ascii.eqb c ","); [|discriminate].
  injection Hc as <-. apply scan_loop_at_end.
Qed.

Lemma scan_app_spaces (ws : string) :
  forall (pre : string) (tokens : list JsonToken),
    scan pre = Some (Tokens tokens) ->
    all_chars is_space ws = true ->
    scan (pre ++ ws) = Some (Tokens tokens).
Proof.
  induction ws as [|c ws IH]; intros pre tokens Hpre Hws.
  - now rewrite append_nil_r.
  - cbn [all_chars] in Hws. apply andb_true_iff in Hws as [Hc Hws].
    rewrite append_shift. apply IH; [|exact Hws].
    rewrite <- (app_nil_r tokens). apply scan_snoc_single; [exact Hpre|].
    unfold single_token. now rewrite Hc.
Qed.

Lemma scan_snoc_quoted (pre literal : string) (tokens : list JsonToken) :
  scan pre = Some (Tokens tokens) ->
  all_chars not_quote literal = true ->
  scan (pre ++ quoted literal) = Some (Tokens (tokens ++ [STR literal])).
Proof.
  intros Hpre Hlit. rewrite (scan_after pre (quoted literal) tokens Hpre).
  unfold quoted. cbn [String.length].
  rewrite (scan_loop_quote _ _ _ _ _
             (get_first_after pre (literal ++ str1 dquote) dquote)).
  pose proof (advance_while_run not_quote (pre ++ str1 dquote) literal
                                (str1 dquote) Hlit eq_refl) as Hadv.
  rewrite <- append_shift, length_snoc in Hadv. rewrite Hadv.
  assert (Hq : get (S (String.length pre) + String.length literal)
                   (pre ++ String dquote (literal ++ str1 dquote))
               = Some dquote).
  { rewrite (append_shift pre _ dquote).
    replace (S (String.length pre) + String.length literal)
      with (String.length (pre ++ str1 dquote) + String.length literal)
      by (rewrite length_snoc; reflexivity).
    rewrite get_app_r. apply get_first_after. }
  rewrite Hq.
  assert (Hsub : substr (pre ++ String dquote (literal ++ str1 dquote))
                        (S (String.length pre))
                        (S (String.length pre) + String.length literal)
                 = literal).
  { unfold substr. rewrite (append_shift pre _ dquote).
    rewrite <- length_snoc with (c := dquote).
    rewrite substring_skip.
    replace (String.length (pre ++ str1 dquote) + String.length literal
             - String.length (pre ++ str1 dquote))
      with (String.length literal) by lia.
    apply substring_all. }
  rewrite Hsub.
  apply scan_loop_end, get_none.
  rewrite append_length. cbn [String.length]. rewrite length_snoc. lia.
Qed.

Lemma substring_from_last (a rest : string) (c : ascii) (run : string) :
  substring (String.length a) (S (String.length run))
            (a ++ String c (run ++ rest))
  = String c run.
Proof.
  rewrite substring_skip. cbn [substring]. f_equal. apply substring_all.
Qed.

Lemma scan_snoc_number (pre run : string) (c0 x : ascii)
      (tokens : list JsonToken) :
  scan (pre ++ str1 c0) = Some (Tokens tokens) ->
  run <> EmptyString ->
  all_chars is_digit run = true ->
  is_digit x = false ->
  scan ((pre ++ str1 c0) ++ run ++ str1 x)
  = Some (Tokens (tokens ++ [NUM (String c0 run)])).
Proof.
  intros Hpre Hne Hrun Hx.
  rewrite (scan_after (pre ++ str1 c0) (run ++ str1 x) tokens Hpre).
  destruct run as [|d run']; [contradiction|].
  cbn [all_chars] in Hrun. apply andb_true_iff in Hrun as [Hd Hrun'].
  cbn [append String.length].
  rewrite (scan_loop_digit _ _ _ _ _ d
             (get_first_after (pre ++ str1 c0) (run' ++ str1 x) d) Hd).
  pose proof (advance_while_run is_digit ((pre ++ str1 c0) ++ str1 d) run'
                                (str1 x) Hrun' Hx) as Hadv.
  rewrite <- append_shift, length_snoc in Hadv. rewrite Hadv.
  assert (Hq : get (S (String.length (pre ++ str1 c0)) + String.length run')
                   ((pre ++ str1 c0) ++ String d (run' ++ str1 x))
               = Some x).
  { rewrite (append_shift (pre ++ str1 c0) _ d).
    replace (S (String.length (pre ++ str1 c0)) + String.length run')
      with (String.length ((pre ++ str1 c0) ++ str1 d) + String.length run')
      by (rewrite (length_snoc (pre ++ str1 c0)); reflexivity).
    rewrite get_app_r. apply get_first_after. }
  rewrite Hq.
  assert (Hsub : substr ((pre ++ str1 c0) ++ String d (run' ++ str1 x))
                        (pred (String.length (pre ++ str1 c0)))
                        (S (String.length (pre ++ str1 c0)) + String.length run')
                 = String c0 (String d run')).
  { unfold substr. rewrite length_snoc. cbn [pred].
    replace (S (S (String.length pre)) + String.length run' - String.length pre)
      with (S (String.length (String d run'))) by (cbn [String.length]; lia).
    rewrite append_assoc. cbn [append str1].
    exact (substring_from_last pre (str1 x) c0 (String d run')). }
  rewrite Hsub.
  apply scan_loop_end, get_none.
  rewrite append_length. cbn [String.length].
  rewrite (append_length run'), (length_snoc pre). cbn [String.length str1]. lia.
Qed.

Lemma scan_leading_number (run : string) (x : ascii) :
  run <> EmptyString ->
  all_chars is_digit run = true ->
  is_digit x = false ->
  scan (run ++ str1 x) = Some (Tokens [NUM run]).
Proof.
  intros Hne Hrun Hx.
  change (run ++ str1 x)%string with (EmptyString ++ (run ++ str1 x))%string.
  rewrite (scan_after EmptyString (run ++ str1 x) [] eq_refl).
  destruct run as [|d run']; [contradiction|].
  cbn [all_chars] in Hrun. apply andb_true_iff in Hrun as [Hd Hrun'].
  cbn [append String.length pred].
  rewrite (scan_loop_digit (String.length (run' ++ str1 x))
                           (String d (run' ++ str1 x)) 0 0 [] d eq_refl Hd).
  pose proof (advance_while_run is_digit (str1 d) run' (str1 x) Hrun' Hx) as Hadv.
  cbn [append str1 String.length] in Hadv.
  change (String.length (String d (run' ++ str1 x)) - 1)
    with (S (String.length (run' ++ str1 x)) - 1).
  rewrite Hadv.
  assert (Hq : get (1 + String.length run') (String d (run' ++ str1 x)) = Some x).
  { cbn [Nat.add get]. apply get_first_after. }
  rewrite Hq.
  assert (Hsub : substr (String d (run' ++ str1 x)) 0 (1 + String.length run')
                 = String d run').
  { unfold substr. rewrite Nat.sub_0_r. cbn [Nat.add substring]. f_equal.
    apply substring_all. }
  rewrite Hsub. cbn [app].
  apply scan_loop_end, get_none.
  cbn [String.length]. rewrite length_snoc. lia.
Qed.

Lemma scan_unexpected_character (pre rest : string) (c : ascii)
      (tokens : list JsonToken) :
  scan pre = Some (Tokens tokens) ->
  single_token c = None ->
  Ascii.eqb c dquote = false ->
  is_digit c = false ->
  scan (pre ++ String c rest) = Some (LexFail (UnexpectedCharacter c)).
Proof.
  intros Hpre Hs Hq Hd. rewrite (scan_after pre (String c rest) tokens Hpre).
  cbn [String.length].
  rewrite (scan_loop_S _ _ _ _ _ _ (get_first_after pre rest c)).
  unfold single_token in Hs.
  destruct (is_space c); [discriminate|].
  destruct (Ascii.eqb c "{"); [discriminate|].
  destruct (Ascii.eqb c "}"); [discriminate|].
  destruct (Ascii.eqb c ":"); [discriminate|].
  destruct (Ascii.eqb c ","); [discriminate|].
  now rewrite Hq, Hd.
Qed.

(** * Rendering and reading back *)

Lemma tabs_are_spaces (n : nat) : all_chars is_space (tabs n) = true.
Proof. induction n as [|n IH]; [reflexivity | exact IH]. Qed.

Lemma uint_string_digits (d : Decimal.uint) :
  all_chars is_digit (NilEmpty.string_of_uint d) = true.
Proof. induction d; [reflexivity | exact IHd ..]. Qed.

Lemma print_int_digits (number : Z) :
  (0 <= number)%Z ->
  all_chars is_digit (print_int number) = true /\ print_int number <> EmptyString.
Proof.
  intro H. unfold print_int.
  destruct number as [|p|p]; [split; [reflexivity | discriminate] | | lia].
  cbn [Z.to_int NilZero.string_of_int].
  rewrite (nilzero_nonnil _ (DecimalPos.Unsigned.to_uint_nonnil p)).
  split; [apply uint_string_digits|].
  destruct (string_of_uint_head (Pos.to_uint p)
              (DecimalPos.Unsigned.to_uint_nonnil p)) as (c & rest & -> & _).
  discriminate.
Qed.

Lemma stoi_after_blank (s : string) : stoi (String " " s) = stoi s.
Proof. reflexivity. Qed.

Lemma rendered_spelling_numbers (n : Z) :
  (INT_MIN <= n <= INT_MAX)%Z ->
  stoi (number_text rendered_spelling n) = Returned n.
Proof.
  intros [H1 H2]. cbn [number_text rendered_spelling].
  rewrite stoi_after_blank, stoi_print_int_outcome.
  apply Z.leb_le in H1, H2. now rewrite H1, H2.
Qed.

Lemma printable_parseable (object : JsonObject) :
  printable object = true -> parseable object = true.
Proof.
  induction object as [name fields IH|name value|name number]
    using JsonObject_induction; cbn [printable parseable]; intro H.
  - apply andb_true_iff in H as [H Hf]. apply andb_true_iff in H as [_ Hn].
    rewrite Hn. cbn [andb].
    apply forallb_forall. intros f Hin.
    rewrite Forall_forall in IH. apply IH; [exact Hin|].
    rewrite forallb_forall in Hf. now apply Hf.
  - reflexivity.
  - apply andb_true_iff in H as [H H2]. apply andb_true_iff in H as [_ H1].
    rewrite H2, andb_true_r. apply Z.leb_le. apply Z.leb_le in H1.
    unfold INT_MIN. lia.
Qed.

Lemma scan_result_by (s s' : string) (toks toks' : list JsonToken) :
  scan s' = Some (Tokens toks') -> s = s' -> toks = toks' ->
  scan s = Some (Tokens toks).
Proof. intros H -> ->. exact H. Qed.

Ltac norm_text :=
  repeat (progress (unfold quoted, str1; cbn [append]; rewrite ?append_assoc)).

Ltac norm_tokens := repeat first [rewrite <- app_assoc | progress cbn [app]].

Lemma fields_scan (fields : list JsonObject) (lvl : nat) :
  Forall field_scan fields ->
  forall (pre : string) (tokens : list JsonToken),
    scan pre = Some (Tokens tokens) ->
    scan (pre ++ fields_loop (fun f => to_string f lvl) fields true)
    = Some (Tokens (tokens ++ members_tokens rendered_spelling fields)).
Proof.
  intro H. rewrite (proj1 (fields_loop_lines _ fields)).
  induction H as [|f rest Hf Hrest IH]; intros pre tokens Hpre.
  - cbn [map RenderSpec.child_lines]. rewrite append_nil_r.
    now rewrite app_nil_r.
  - destruct rest as [|g rest].
    + cbn [map RenderSpec.child_lines]. rewrite members_tokens_one.
      specialize (Hf lvl pre tokens false Hpre).
      cbn [andb append] in Hf. rewrite app_nil_r in Hf. exact Hf.
    + rewrite members_tokens_more.
      change (RenderSpec.child_lines (map (fun f0 => to_string f0 lvl)
                                          (f :: g :: rest)))
        with (to_string f lvl ++ "," ++ str1 newline
                ++ RenderSpec.child_lines
                     (map (fun f0 => to_string f0 lvl) (g :: rest)))%string.
      specialize (Hf lvl pre tokens true Hpre). cbn [andb] in Hf.
      specialize (IH _ _ Hf).
      apply (scan_result_by _ _ _ _ IH);
        [norm_text; reflexivity | norm_tokens; reflexivity].
Qed.

Lemma single_colon : single_token ":" = Some [COLON].
Proof. reflexivity. Qed.
Lemma single_blank : single_token " " = Some [].
Proof. reflexivity. Qed.
Lemma single_comma : single_token "," = Some [COMMA].
Proof. reflexivity. Qed.
Lemma single_newline : single_token newline = Some [].
Proof. reflexivity. Qed.
Lemma single_open : single_token "{" = Some [LB].
Proof. reflexivity. Qed.
Lemma single_close : single_token "}" = Some [RB].
Proof. reflexivity. Qed.

(** Indentation, quoted name, colon, blank. *)
Lemma scan_field_head (lvl : nat) (pre name : string)
      (tokens : list JsonToken) :
  scan pre = Some (Tokens tokens) ->
  all_chars not_quote name = true ->
  scan ((((pre ++ tabs lvl) ++ quoted name) ++ str1 ":") ++ str1 " ")
  = Some (Tokens (((tokens ++ [STR name]) ++ [COLON]) ++ [])).
Proof.
  intros Hpre Hname.
  apply scan_snoc_single; [|exact single_blank].
  apply scan_snoc_single; [|exact single_colon].
  apply scan_snoc_quoted; [|exact Hname].
  apply scan_app_spaces; [exact Hpre | apply tabs_are_spaces].
Qed.

Lemma number_field_scan (name : string) (number : Z) :
  printable (JsonNumber name number) = true ->
  field_scan (JsonNumber name number).
Proof.
  cbn [printable]. intro H.
  apply andb_true_iff in H as [H _]. apply andb_true_iff in H as [Hname Hz].
  apply Z.leb_le in Hz. destruct (print_int_digits number Hz) as [Hd Hne].
  intros lvl pre tokens more Hpre.
  pose proof (scan_field_head lvl pre name tokens Hpre Hname) as Hhead.
  cbn [to_string member_tokens rendered_spelling number_text comma_after].
  rewrite andb_false_r.
  destruct more.
  - pose proof (scan_snoc_number _ (print_int number) " " "," _ Hhead Hne Hd
                                 eq_refl) as Hnum.
    pose proof (scan_snoc_single _ _ [] newline Hnum single_newline) as Hall.
    apply (scan_result_by _ _ _ _ Hall);
      [norm_text; reflexivity | norm_tokens; reflexivity].
  - pose proof (scan_snoc_number _ (print_int number) " " newline _ Hhead Hne Hd
                                 eq_refl) as Hnum.
    apply (scan_result_by _ _ _ _ Hnum);
      [norm_text; reflexivity | norm_tokens; reflexivity].
Qed.

Lemma string_field_scan (name value : string) :
  printable (JsonString name value) = true ->
  field_scan (JsonString name value).
Proof.
  cbn [printable]. intro H. apply andb_true_iff in H as [Hname Hvalue].
  intros lvl pre tokens more Hpre.
  pose proof (scan_field_head lvl pre name tokens Hpre Hname) as Hhead.
  pose proof (scan_snoc_quoted _ value _ Hhead Hvalue) as Hval.
  cbn [to_string member_tokens rendered_spelling comma_after].
  destruct more; cbn [andb].
  - pose proof (scan_snoc_single _ _ _ "," Hval single_comma) as Hc.
    pose proof (scan_snoc_single _ _ [] newline Hc single_newline) as Hall.
    apply (scan_result_by _ _ _ _ Hall);
      [norm_text; reflexivity | norm_tokens; reflexivity].
  - pose proof (scan_snoc_single _ _ [] newline Hval single_newline) as Hall.
    apply (scan_result_by _ _ _ _ Hall);
      [norm_text; reflexivity | norm_tokens; reflexivity].
Qed.

Lemma group_field_scan (name : string) (fields : list JsonObject) :
  Forall field_scan fields ->
  all_chars not_quote name = true ->
  String.eqb name ROOT = false ->
  field_scan (JsonGroup name fields).
Proof.
  intros Hfields Hname Hroot lvl pre tokens more Hpre.
  pose proof (scan_field_head lvl pre name tokens Hpre Hname) as Hhead.
  pose proof (scan_snoc_single _ _ _ "{" Hhead single_open) as Hopen.
  pose proof (scan_snoc_single _ _ [] newline Hopen single_newline) as Hnl.
  pose proof (fields_scan fields (S lvl) Hfields _ _ Hnl) as Hin.
  pose proof (scan_app_spaces (tabs lvl) _ _ Hin (tabs_are_spaces lvl)) as Htabs.
  pose proof (scan_snoc_single _ _ _ "}" Htabs single_close) as Hclose.
  cbn [to_string member_tokens rendered_spelling comma_after].
  rewrite Hroot. cbn [negb].
  change (join_members rendered_spelling
            (map (fun f => (f, member_tokens rendered_spelling f)) fields))
    with (members_tokens rendered_spelling fields).
  destruct more; cbn [andb].
  - pose proof (scan_snoc_single _ _ _ "," Hclose single_comma) as Hc.
    pose proof (scan_snoc_single _ _ [] newline Hc single_newline) as Hall.
    apply (scan_result_by _ _ _ _ Hall);
      [norm_text; reflexivity | norm_tokens; reflexivity].
  - pose proof (scan_snoc_single _ _ [] newline Hclose single_newline) as Hall.
    apply (scan_result_by _ _ _ _ Hall);
      [norm_text; reflexivity | norm_tokens; reflexivity].
Qed.

Lemma printable_field_scan (object : JsonObject) :
  printable object = true -> field_scan object.
Proof.
  induction object as [name fields IH|name value|name number]
    using JsonObject_induction; intro H.
  - cbn [printable] in H.
    apply andb_true_iff in H as [H Hf]. apply andb_true_iff in H as [Hn Hr].
    apply negb_true_iff in Hr.
    apply group_field_scan; [|exact Hn|exact Hr].
    apply Forall_forall. intros f Hin.
    rewrite Forall_forall in IH. apply IH; [exact Hin|].
    rewrite forallb_forall in Hf. now apply Hf.
  - now apply string_field_scan.
  - now apply number_field_scan.
Qed.

Lemma scan_rendering (fields : list JsonObject) :
  forallb printable fields = true ->
  scan (to_string (JsonGroup ROOT fields) 0)
  = Some (Tokens (document_tokens rendered_spelling fields)).
Proof.
  intro H.
  assert (Hfs : Forall field_scan fields).
  { apply Forall_forall. intros f Hin. apply printable_field_scan.
    rewrite forallb_forall in H. now apply H. }
  assert (H0 : scan EmptyString = Some (Tokens [])) by reflexivity.
  pose proof (scan_snoc_single _ _ _ "{" H0 single_open) as Hopen.
  pose proof (scan_snoc_single _ _ [] newline Hopen single_newline) as Hnl.
  pose proof (fields_scan fields 1 Hfs _ _ Hnl) as Hin.
  pose proof (scan_snoc_single _ _ _ "}" Hin single_close) as Hclose.
  apply (scan_result_by _ _ _ _ Hclose).
  - cbn [to_string]. rewrite String.eqb_refl. cbn [negb tabs].
    norm_text. reflexivity.
  - unfold document_tokens. norm_tokens. reflexivity.
Qed.

Lemma parse_rendered_tokens (fields : list JsonObject) :
  forallb printable fields = true ->
  parse (document_tokens rendered_spelling fields)
  = Returned (JsonGroup ROOT fields).
Proof.
  intro H. apply parse_document; [exact rendered_spelling_numbers|].
  apply forallb_forall. intros f Hin. apply printable_parseable.
  rewrite forallb_forall in H. now apply H.
Qed.

(** ** [scan] piece by piece, and the whole pipeline *)

(** X9.  A text of white space only, the empty text included, has no token, and
    a character that is a token of its own or white space adds its token to
    those of the text in front of it. *)
Theorem single_character_tokens :
  (forall ws : string,
      all_chars is_space ws = true -> scan ws = Some (Tokens []))
  /\ (forall (pre : string) (tokens ts : list JsonToken) (c : ascii),
         scan pre = Some (Tokens tokens) ->
         single_token c = Some ts ->
         scan (pre ++ str1 c) = Some (Tokens (tokens ++ ts))).
Proof.
  split.
  - intros ws H.
    exact (scan_app_spaces ws EmptyString [] eq_refl H).
  - intros pre tokens ts c. apply scan_snoc_single.
Qed.

Lemma single_character_tokens_witness :
  (all_chars is_space (String " " (String newline (str1 tab))) = true
   /\ scan ("{" ++ quoted "a") = Some (Tokens [LB; STR "a"])
   /\ single_token ":" = Some [COLON])
  /\ scan (String " " (String newline (str1 tab))) = Some (Tokens [])
  /\ scan (("{" ++ quoted "a") ++ str1 ":") = Some (Tokens [LB; STR "a"; COLON]).
Proof.
  split; [repeat split|]. split.
  - exact (proj1 single_character_tokens
                 (String " " (String newline (str1 tab))) eq_refl).
  - exact (proj2 single_character_tokens ("{" ++ quoted "a")%string [LB; STR "a"]
                 [COLON] ":"%char eq_refl eq_refl).
Defined.

(** X10.  The content of a number token is the run of digits together with the
    character in front of it, whatever that is, and the character behind the run
    gets no token; only at the very beginning of the text is the content the run
    alone. When that character in front is neither white space nor a sign,
    [std::stoi] throws on the content. *)
Theorem number_token_content :
  (forall (pre run : string) (c0 x : ascii) (tokens : list JsonToken),
      scan (pre ++ str1 c0) = Some (Tokens tokens) ->
      run <> EmptyString ->
      all_chars is_digit run = true ->
      is_digit x = false ->
      scan ((pre ++ str1 c0) ++ run ++ str1 x)
      = Some (Tokens (tokens ++ [NUM (String c0 run)])))
  /\ (forall (run : string) (x : ascii),
         run <> EmptyString ->
         all_chars is_digit run = true ->
         is_digit x = false ->
         scan (run ++ str1 x) = Some (Tokens [NUM run]))
  /\ (forall (run : string) (c0 : ascii),
         is_cspace c0 = false -> is_digit c0 = false ->
         Ascii.eqb c0 "-" = false -> Ascii.eqb c0 "+" = false ->
         stoi (String c0 run) = Crash StoiInvalidArgument).
Proof.
  split; [|split].
  - intros pre run c0 x tokens. apply scan_snoc_number.
  - intros run x. apply scan_leading_number.
  - intros run c0 Hs Hd Hm Hp. unfold stoi. cbn [skip_cspace]. rewrite Hs.
    destruct c0 as [b0 b1 b2 b3 b4 b5 b6 b7].
    destruct b0, b1, b2, b3, b4, b5, b6, b7;
      try discriminate Hm; try discriminate Hp;
      unfold stoi_unsigned; rewrite Hd; reflexivity.
Qed.

Lemma number_token_content_witness :
  (scan (("{" ++ quoted "a") ++ str1 ":") = Some (Tokens [LB; STR "a"; COLON])
   /\ "12" <> EmptyString /\ all_chars is_digit "12" = true
   /\ is_digit "}" = false
   /\ is_cspace ":" = false /\ is_digit ":" = false
   /\ Ascii.eqb ":" "-" = false /\ Ascii.eqb ":" "+" = false)
  /\ scan ((("{" ++ quoted "a") ++ str1 ":") ++ "12" ++ str1 "}")
     = Some (Tokens [LB; STR "a"; COLON; NUM ":12"])
  /\ scan ("12" ++ str1 "}") = Some (Tokens [NUM "12"])
  /\ stoi ":12" = Crash StoiInvalidArgument.
Proof.
  split; [repeat split; discriminate|]. split; [|split].
  - exact (proj1 number_token_content ("{" ++ quoted "a")%string "12" ":"%char "}"%char
                 [LB; STR "a"; COLON] eq_refl
                 ltac:(discriminate) eq_refl eq_refl).
  - exact (proj1 (proj2 number_token_content) "12" "}"%char
                 ltac:(discriminate) eq_refl eq_refl).
  - exact (proj2 (proj2 number_token_content) "12" ":"%char
                 eq_refl eq_refl eq_refl eq_refl).
Defined.

(** X11.  A character that is no white space, brace, colon, comma, double quote
    or digit, met where a token may start, stops [scan] with that character
    reported, whatever follows it. *)
Theorem unexpected_character_stops_scan (pre rest : string) (c : ascii)
        (tokens : list JsonToken) :
  scan pre = Some (Tokens tokens) ->
  single_token c = None ->
  Ascii.eqb c dquote = false ->
  is_digit c = false ->
  scan (pre ++ String c rest) = Some (LexFail (UnexpectedCharacter c))
  /\ returned_tokens (LexFail (UnexpectedCharacter c)) = [].
Proof.
  intros Hpre Hs Hq Hd. split; [|reflexivity].
  exact (scan_unexpected_character pre rest c tokens Hpre Hs Hq Hd).
Qed.

Lemma unexpected_character_stops_scan_witness :
  (scan ("{" ++ quoted "a" ++ ": ") = Some (Tokens [LB; STR "a"; COLON])
   /\ single_token "t" = None /\ Ascii.eqb "t" dquote = false
   /\ is_digit "t" = false)
  /\ scan (("{" ++ quoted "a" ++ ": ") ++ "true}")
     = Some (LexFail (UnexpectedCharacter "t")).
Proof.
  split; [repeat split|].
  exact (proj1 (unexpected_character_stops_scan
                  ("{" ++ quoted "a" ++ ": ")%string "rue}" "t"%char
                  [LB; STR "a"; COLON]
                  eq_refl eq_refl eq_refl eq_refl)).
Defined.

(** X14.  The tokens of a rendering: for a printable tree, [scan] of what
    [to_string] prints returns the tokens that spell the tree, each number token
    with the blank in front of the digits and no comma token behind a number. *)
Theorem scan_of_rendering (fields : list JsonObject) :
  forallb printable fields = true ->
  scan (to_string (JsonGroup ROOT fields) 0)
  = Some (Tokens (document_tokens rendered_spelling fields)).
Proof. apply scan_rendering. Qed.

Lemma scan_of_rendering_witness :
  forallb printable [JsonNumber "a" 1; JsonString "b" "x"] = true
  /\ scan (to_string (JsonGroup ROOT [JsonNumber "a" 1; JsonString "b" "x"]) 0)
     = Some (Tokens [LB; STR "a"; COLON; NUM " 1"; STR "b"; COLON; STR "x"; RB]).
Proof.
  split; [reflexivity|].
  exact (scan_of_rendering [JsonNumber "a" 1; JsonString "b" "x"] eq_refl).
Defined.

(** X15.  Reading back what was rendered: for a printable tree, scanning the
    text that [to_string] prints and parsing the tokens returns the tree, and
    rendering that again gives the same text. *)
Theorem rendering_round_trip (fields : list JsonObject) :
  forallb printable fields = true ->
  (exists tokens,
      scan (to_string (JsonGroup ROOT fields) 0) = Some (Tokens tokens)
      /\ parse tokens = Returned (JsonGroup ROOT fields))
  /\ scan_parse_render (to_string (JsonGroup ROOT fields) 0)
     = Some (Returned (to_string (JsonGroup ROOT fields) 0)).
Proof.
  intro H.
  pose proof (scan_rendering fields H) as Hs.
  pose proof (parse_rendered_tokens fields H) as Hp.
  split.
  - exists (document_tokens rendered_spelling fields). now split.
  - unfold scan_parse_render. rewrite Hs. cbn [returned_tokens].
    rewrite Hp. reflexivity.
Qed.

Lemma rendering_round_trip_witness :
  forallb printable
          [JsonGroup "a" [JsonNumber "b" 1; JsonGroup "e" []];
           JsonString "c" "x"] = true
  /\ scan_parse_render
       (to_string (JsonGroup ROOT
                     [JsonGroup "a" [JsonNumber "b" 1; JsonGroup "e" []];
                      JsonString "c" "x"]) 0)
     = Some (Returned
               (to_string (JsonGroup ROOT
                             [JsonGroup "a" [JsonNumber "b" 1; JsonGroup "e" []];
                              JsonString "c" "x"]) 0)).
Proof.
  split; [reflexivity|].
  exact (proj2 (rendering_round_trip
                  [JsonGroup "a" [JsonNumber "b" 1; JsonGroup "e" []];
                   JsonString "c" "x"] eq_refl)).
Defined.

(** X16.  Two printable trees with the same rendering are the same tree. *)
Theorem to_string_injective (fields1 fields2 : list JsonObject) :
  forallb printable fields1 = true ->
  forallb printable fields2 = true ->
  to_string (JsonGroup ROOT fields1) 0 = to_string (JsonGroup ROOT fields2) 0 ->
  fields1 = fields2.
Proof.
  intros H1 H2 Heq.
  pose proof (scan_rendering fields1 H1) as Hs1.
  pose proof (scan_rendering fields2 H2) as Hs2.
  assert (Ht : document_tokens rendered_spelling fields1
               = document_tokens rendered_spelling fields2) by congruence.
  pose proof (parse_rendered_tokens fields1 H1) as Hp1.
  pose proof (parse_rendered_tokens fields2 H2) as Hp2.
  rewrite Ht, Hp2 in Hp1. now injection Hp1.
Qed.

Lemma to_string_injective_witness :
  (forallb printable [JsonNumber "a" 1] = true
   /\ to_string (JsonGroup ROOT [JsonNumber "a" 1]) 0
      = to_string (JsonGroup ROOT [JsonNumber "a" 1]) 0)
  /\ [JsonNumber "a" 1] = [JsonNumber "a" 1].
Proof.
  split; [split; reflexivity|].
  exact (to_string_injective [JsonNumber "a" 1] [JsonNumber "a" 1]
                             eq_refl eq_refl eq_refl).
Defined.

(** * Spans, token shapes and [main] *)

(** ** The span of a brace *)

Lemma group_span_app (pre tokens : list JsonToken) (i : nat) :
  group_span (pre ++ tokens) (List.length pre + i)
  = (span <- group_span tokens i ;;
     Returned (option_map (fun ex => (fst ex, pre ++ snd ex)) span)).
Proof.
  induction pre as [|t pre IH].
  - cbn [app List.length Nat.add].
    destruct (group_span tokens i) as [[[g t1]|]| | |]; reflexivity.
  - cbn [app List.length Nat.add]. rewrite group_span_cons, IH.
    destruct (group_span tokens i) as [[[g t1]|]| | |]; reflexivity.
Qed.

Lemma match_brace_runs_to_end (l : list JsonToken) :
  forall (d : Z) (fuel : nat),
    runs_to_end d l = true ->
    List.length l <= fuel ->
    fst (match_brace fuel l 0 d) = List.length l.
Proof.
  induction l as [|tok rest IH]; intros d fuel Hrun Hfuel.
  - destruct fuel; reflexivity.
  - cbn [runs_to_end] in Hrun. apply andb_true_iff in Hrun as [Hd Hrun].
    destruct fuel as [|fuel]; [simpl in Hfuel; lia|].
    simpl in Hfuel. cbn [match_brace nth_error]. rewrite Hd.
    rewrite match_brace_cons. cbn [fst List.length]. f_equal.
    apply IH; [exact Hrun | lia].
Qed.

Lemma group_span_runs_to_end (inner : list JsonToken) (t : JsonToken) :
  runs_to_end 1 (inner ++ [t]) = true ->
  group_span (inner ++ [t]) 0 = Returned (Some (inner, [t])).
Proof.
  intro Hrun. unfold group_span, closing_idx.
  rewrite Nat.sub_0_r, (match_brace_runs_to_end _ 1 _ Hrun (le_n _)).
  rewrite length_app. cbn [List.length].
  destruct (List.length inner + 1 <=? 0) eqn:E;
    [apply Nat.leb_le in E; lia|].
  replace (List.length inner + 1 - 1) with (List.length inner) by lia.
  unfold extract_from_to.
  replace (List.length inner <? 0) with false by reflexivity.
  destruct (List.length (inner ++ [t]) <? List.length inner) eqn:E2.
  { apply Nat.ltb_lt in E2. rewrite length_app in E2. lia. }
  destruct inner as [|tok rest]; [reflexivity|].
  simpl.
  rewrite firstn_app, Nat.sub_diag, firstn_all, firstn_O, app_nil_r.
  rewrite skipn_app, Nat.sub_diag, skipn_all, skipn_O.
  reflexivity.
Qed.

Lemma encloses_runs_to_end (inner : list JsonToken) :
  forall (d : Z) (rb : JsonToken),
    encloses d inner = true -> type rb = TOK_RIGHT_BRACE ->
    runs_to_end d (inner ++ [rb]) = true.
Proof.
  induction inner as [|tok rest IH]; intros d rb Henc Hrb.
  - cbn [encloses] in Henc. apply Z.eqb_eq in Henc. subst d.
    cbn [app runs_to_end]. reflexivity.
  - cbn [encloses] in Henc. apply andb_true_iff in Henc as [Hd Henc].
    cbn [app runs_to_end]. rewrite Hd. cbn [andb]. now apply IH.
Qed.

(** X8.  Span extraction. Behind an opening brace at the end of [pre], when the
    depth-counting loop reads up to the end of the vector, the span that [parse]
    extracts is everything but the last token, and that last token stays in the
    vector, whether it is the closing brace or not; when the brace is closed by
    [rb] further in front, the span is what stands between the two and
    everything behind [rb] stays. *)
Theorem span_extraction :
  (forall (pre inner : list JsonToken) (t : JsonToken),
      runs_to_end 1 (inner ++ [t]) = true ->
      group_span (pre ++ inner ++ [t]) (List.length pre)
      = Returned (Some (inner, pre ++ [t])))
  /\ (forall (pre inner post : list JsonToken) (rb : JsonToken),
         encloses 1 inner = true ->
         type rb = TOK_RIGHT_BRACE ->
         group_span (pre ++ inner ++ rb :: post) (List.length pre)
         = Returned (Some (inner, pre ++ rb :: post)))
  /\ (forall pre : list JsonToken,
         group_span pre (List.length pre) = Returned None).
Proof.
  split; [|split].
  - intros pre inner t Hrun.
    rewrite <- (Nat.add_0_r (List.length pre)), group_span_app.
    now rewrite (group_span_runs_to_end inner t Hrun).
  - intros pre inner post rb Henc Hrb.
    rewrite <- (Nat.add_0_r (List.length pre)), group_span_app.
    now rewrite (group_span_encloses inner rb post Henc Hrb).
  - intro pre. unfold group_span. now rewrite Nat.leb_refl.
Qed.

Lemma span_extraction_witness :
  (runs_to_end 1 ([STR "a"; COLON] ++ [NUM "1"]) = true
   /\ encloses 1 [STR "a"; COLON; NUM "1"] = true
   /\ type RB = TOK_RIGHT_BRACE)
  /\ group_span ([LB] ++ [STR "a"; COLON] ++ [NUM "1"]) 1
     = Returned (Some ([STR "a"; COLON], [LB; NUM "1"]))
  /\ group_span ([LB] ++ [STR "a"; COLON; NUM "1"] ++ RB :: [COMMA]) 1
     = Returned (Some ([STR "a"; COLON; NUM "1"], [LB; RB; COMMA])).
Proof.
  split; [repeat split|]. split.
  - exact (proj1 span_extraction [LB] [STR "a"; COLON] (NUM "1") eq_refl).
  - exact (proj1 (proj2 span_extraction) [LB] [STR "a"; COLON; NUM "1"]
                 [COMMA] RB eq_refl eq_refl).
Defined.

(** ** The shape of the tokens *)

Lemma all_chars_substring (p : ascii -> bool) (s : string) :
  forall n m : nat,
    (forall j, n <= j < n + m -> exists c, get j s = Some c /\ p c = true) ->
    all_chars p (substring n m s) = true.
Proof.
  induction s as [|c s IH]; intros n m H.
  - destruct n, m; reflexivity.
  - destruct n as [|n].
    + destruct m as [|m]; [reflexivity|].
      cbn [substring all_chars].
      destruct (H 0) as (c' & Hc' & Hp); [lia|].
      cbn [get] in Hc'. injection Hc' as <-. rewrite Hp. cbn [andb].
      apply IH. intros j Hj. destruct (H (S j)) as (c' & Hc' & Hp'); [lia|].
      exists c'. split; assumption.
    + cbn [substring]. apply IH. intros j Hj.
      destruct (H (S j)) as (c' & Hc' & Hp'); [lia|].
      exists c'. split; assumption.
Qed.

Lemma substring_cons (s : string) :
  forall (n m : nat) (c : ascii),
    get n s = Some c ->
    substring n (S m) s = String c (substring (S n) m s).
Proof.
  induction s as [|x s IH]; intros n m c H.
  - destruct n; discriminate.
  - destruct n as [|n].
    + cbn [get] in H. injection H as <-. cbn [substring].
      destruct s; destruct m; reflexivity.
    + cbn [get] in H. cbn [substring]. now apply IH.
Qed.

Lemma get_some (s : string) (n : nat) :
  n < String.length s -> exists c, get n s = Some c.
Proof.
  intro H. destruct (get n s) as [c|] eqn:E; [eauto|].
  apply get_none in E. lia.
Qed.

Lemma number_shape (c : ascii) (rest : string) :
  all_chars is_digit rest = true ->
  rest <> EmptyString \/ is_digit c = true ->
  token_shape (NUM (String c rest)) = true.
Proof.
  intros Hrest H. unfold token_shape. cbn [type NUM content].
  destruct rest as [|r rest]; [|exact Hrest].
  destruct H as [H|H]; [contradiction | exact H].
Qed.

Lemma scan_loop_shapes (fuel : nat) :
  forall (s : string) (e : nat) (tokens tokens' : list JsonToken),
    forallb token_shape tokens = true ->
    scan_loop fuel s (pred e) e tokens = Some (Tokens tokens') ->
    forallb token_shape tokens' = true.
Proof.
  induction fuel as [|fuel IH]; intros s e tokens tokens' Hsh H.
  - simpl in H. destruct (get e s); [discriminate|]. now injection H as <-.
  - destruct (get e s) as [c|] eqn:Hc.
    2:{ rewrite scan_loop_end in H by assumption. now injection H as <-. }
    rewrite (scan_loop_S _ _ _ _ _ _ Hc) in H.
    assert (Hstep : forall tok,
               token_shape tok = true ->
               scan_loop fuel s e (S e) (tokens ++ [tok]) = Some (Tokens tokens') ->
               forallb token_shape tokens' = true).
    { intros tok Ht H1. apply (IH s (S e) (tokens ++ [tok]) tokens'); [|exact H1].
      rewrite forallb_app, Hsh. cbn [forallb]. now rewrite Ht. }
    destruct (is_space c); [exact (IH s (S e) tokens tokens' Hsh H)|].
    destruct (Ascii.eqb c "{"); [exact (Hstep LB eq_refl H)|].
    destruct (Ascii.eqb c "}"); [exact (Hstep RB eq_refl H)|].
    destruct (Ascii.eqb c ":"); [exact (Hstep COLON eq_refl H)|].
    destruct (Ascii.eqb c ","); [exact (Hstep COMMA eq_refl H)|].
    destruct (Ascii.eqb c dquote).
    { cbv zeta in H.
      destruct (advance_while_spec not_quote s (String.length s - S e) (S e))
        as (Hge & _ & Hrun & _).
      set (e2 := advance_while not_quote s (String.length s - S e) (S e)) in *.
      destruct (get e2 s); [|discriminate].
      refine (IH s (S e2) _ tokens' _ H).
      rewrite forallb_app, Hsh. cbn [forallb]. rewrite andb_true_r.
      unfold token_shape, substr. cbn [type content].
      apply all_chars_substring. intros j Hj. apply Hrun. lia. }
    destruct (is_digit c) eqn:Hd; [|discriminate].
    cbv zeta in H.
    destruct (advance_while_spec is_digit s (String.length s - S e) (S e))
      as (Hge & _ & Hrun & _).
    set (e2 := advance_while is_digit s (String.length s - S e) (S e)) in *.
    destruct (get e2 s); [|discriminate].
    refine (IH s (S e2) _ tokens' _ H).
    rewrite forallb_app, Hsh. cbn [forallb]. rewrite andb_true_r.
    assert (Htail : all_chars is_digit (substring (S e) (e2 - S e) s) = true).
    { apply all_chars_substring. intros j Hj. apply Hrun. lia. }
    unfold substr. destruct e as [|e'].
    + cbn [pred]. rewrite Nat.sub_0_r.
      replace e2 with (S (e2 - 1)) by lia.
      rewrite (substring_cons s 0 (e2 - 1) c Hc).
      apply number_shape; [exact Htail | now right].
    + cbn [pred].
      destruct (get_some s e') as (c' & Hc').
      { apply get_lt in Hc. lia. }
      replace (e2 - e') with (S (S (e2 - S (S e')))) by lia.
      rewrite (substring_cons s e' _ c' Hc'), (substring_cons s (S e') _ c Hc).
      apply number_shape; [|left; discriminate].
      cbn [all_chars]. rewrite Hd. exact Htail.
Qed.

(** X13.  Every token that [scan] returns has the content of its kind: the
    character itself for a brace, a colon and a comma, no double quote inside a
    string token, and for a number token digits behind at most one character
    that is none. *)
Theorem token_shapes (json_string : string) (tokens : list JsonToken) :
  scan json_string = Some (Tokens tokens) ->
  forallb token_shape tokens = true.
Proof.
  intro H. exact (scan_loop_shapes _ json_string 0 [] tokens eq_refl H).
Qed.

Lemma token_shapes_witness :
  scan text_a_b_c
  = Some (Tokens [LB; STR "a"; COLON; LB; STR "b"; COLON; NUM " 1"; COMMA;
                  STR "c"; COLON; LB; RB; RB])
  /\ forallb token_shape
             [LB; STR "a"; COLON; LB; STR "b"; COLON; NUM " 1"; COMMA;
              STR "c"; COLON; LB; RB; RB] = true.
Proof.
  split; [reflexivity|].
  exact (token_shapes text_a_b_c _ eq_refl).
Defined.

(** ** [main] *)

(** X17.  A text that [scan] gives up on still makes [main] print the empty
    object and exit with status 0: the empty vector that [scan] returns is
    parsed like any other. *)
Theorem main_after_lexical_failure (json_string : string) (e : LexError) :
  scan json_string = Some (LexFail e) ->
  main json_string
  = Some (Returned (0%Z, Some ("{" ++ str1 newline ++ "}")%string)).
Proof. intro H. unfold main. rewrite H. reflexivity. Qed.

Lemma main_after_lexical_failure_witness :
  scan text_unterminated = Some (LexFail UnterminatedString)
  /\ main text_unterminated
     = Some (Returned (0%Z, Some ("{" ++ str1 newline ++ "}")%string)).
Proof.
  split; [reflexivity|].
  exact (main_after_lexical_failure text_unterminated UnterminatedString
                                    eq_refl).
Defined.



(** ** Witnesses of the statements on [parse] and [extract_from_to] *)

Lemma malformed_field_outcomes_witness :
  type (STR "a") = TOK_STR_VAL
  /\ parse [STR "a"] = Crash OutOfBoundsRead
  /\ parse [STR "a"; NUM "1"] = Nullopt ExpectedColon
  /\ parse [STR "a"; COLON] = Crash OutOfBoundsRead
  /\ parse [STR "a"; COLON; COMMA] = Crash AssertionFailed
  /\ parse [STR "a"; COLON; NUM "99999999999"] = Crash StoiOutOfRange.
Proof.
  split; [reflexivity|].
  destruct (malformed_field_outcomes (STR "a") eq_refl) as (H1 & H2 & H3).
  destruct (H3 COLON eq_refl) as (H4 & H5 & H6).
  split; [exact H1|]. split.
  - apply (H2 (NUM "1") []). discriminate.
  - split; [exact H4|]. split.
    + apply (H5 COMMA []); [reflexivity | discriminate].
    + exact (H6 (NUM "99999999999") [] StoiOutOfRange eq_refl eq_refl).
Defined.

Lemma only_expected_colon_is_reported_witness :
  parse [LB; STR "a"; STR "b"; RB] = Nullopt ExpectedColon
  /\ ExpectedColon = ExpectedColon.
Proof.
  split; [reflexivity|].
  exact (only_expected_colon_is_reported [LB; STR "a"; STR "b"; RB]
                                         ExpectedColon eq_refl).
Defined.

Lemma extract_from_to_splice_witness :
  (3 < 4 /\ 1 <= 3 <= List.length [LB; STR "a"; COLON; RB])
  /\ extract_from_to [LB; STR "a"; COLON; RB] 4 3 = Crash AssertionFailed
  /\ exists extraction rest,
      extract_from_to [LB; STR "a"; COLON; RB] 1 3 = Returned (extraction, rest)
      /\ List.length extraction = 3 - 1
      /\ [LB; STR "a"; COLON; RB]
         = firstn 1 rest ++ extraction ++ skipn 1 rest
      /\ (forall k, k < 3 - 1 ->
                    nth_error extraction k
                    = nth_error [LB; STR "a"; COLON; RB] (1 + k)).
Proof.
  split; [simpl; lia|]. split.
  - apply (proj1 (extract_from_to_splice [LB; STR "a"; COLON; RB] 4 3)).
    left. lia.
  - apply (proj2 (extract_from_to_splice [LB; STR "a"; COLON; RB] 1 3)).
    simpl. lia.
Defined.

(** ** A digit at the end of the text *)

Lemma scan_loop_last_no_digit (fuel : nat) :
  forall (s : string) (start e : nat) (tokens tokens' : list JsonToken),
    e < String.length s ->
    scan_loop fuel s start e tokens = Some (Tokens tokens') ->
    exists c, get (String.length s - 1) s = Some c /\ is_digit c = false.
Proof.
  induction fuel as [|fuel IH]; intros s start e tokens tokens' He H.
  - simpl in H. destruct (get e s) eqn:Hc; [discriminate|].
    apply get_none in Hc. lia.
  - destruct (get e s) as [c|] eqn:Hc; [|apply get_none in Hc; lia].
    rewrite (scan_loop_S _ _ _ _ _ _ Hc) in H.
    assert (Hnext : forall st toks1 e1 c1,
               get e1 s = Some c1 -> is_digit c1 = false ->
               scan_loop fuel s st (S e1) toks1 = Some (Tokens tokens') ->
               exists c', get (String.length s - 1) s = Some c'
                          /\ is_digit c' = false).
    { intros st toks1 e1 c1 Hc1 Hd1 H1.
      pose proof (get_lt _ _ _ Hc1) as Hlt1.
      destruct (Nat.eq_dec (S e1) (String.length s)) as [Heq|Hneq].
      - exists c1. split; [|exact Hd1].
        replace (String.length s - 1) with e1 by lia. exact Hc1.
      - apply (IH s st (S e1) toks1 tokens'); [lia | exact H1]. }
    assert (Hnd : is_digit c = true ->
                  is_space c = false /\ Ascii.eqb c "{" = false
                  /\ Ascii.eqb c "}" = false /\ Ascii.eqb c ":" = false
                  /\ Ascii.eqb c "," = false /\ Ascii.eqb c dquote = false)
      by apply digit_is_no_other_class.
    destruct (is_digit c) eqn:Hd.
    + destruct (Hnd eq_refl) as (E1 & E2 & E3 & E4 & E5 & E6).
      rewrite E1, E2, E3, E4, E5, E6 in H. cbv zeta in H.
      destruct (advance_while_spec is_digit s (String.length s - S e) (S e))
        as (Hge & Hle & _ & Hstop).
      set (e2 := advance_while is_digit s (String.length s - S e) (S e)) in *.
      destruct (get e2 s) as [c2|] eqn:Hc2; [|discriminate].
      refine (Hnext _ _ e2 c2 Hc2 _ H).
      apply (Hstop ltac:(apply get_lt in Hc2; lia) c2 eq_refl).
    + destruct (is_space c); [exact (Hnext _ _ e c Hc Hd H)|].
      destruct (Ascii.eqb c "{"); [exact (Hnext _ _ e c Hc Hd H)|].
      destruct (Ascii.eqb c "}"); [exact (Hnext _ _ e c Hc Hd H)|].
      destruct (Ascii.eqb c ":"); [exact (Hnext _ _ e c Hc Hd H)|].
      destruct (Ascii.eqb c ","); [exact (Hnext _ _ e c Hc Hd H)|].
      destruct (Ascii.eqb c dquote); [|discriminate].
      cbv zeta in H.
      destruct (advance_while_spec not_quote s (String.length s - S e) (S e))
        as (Hge & Hle & _ & Hstop).
      set (e2 := advance_while not_quote s (String.length s - S e) (S e)) in *.
      destruct (get e2 s) as [c2|] eqn:Hc2; [|discriminate].
      refine (Hnext _ _ e2 c2 Hc2 _ H).
      assert (Hq : not_quote c2 = false)
        by (apply (Hstop ltac:(apply get_lt in Hc2; lia) c2 eq_refl)).
      unfold not_quote in Hq. apply negb_false_iff, Ascii.eqb_eq in Hq.
      subst c2. reflexivity.
Qed.

(** X12.  A text whose last character is a digit is never tokenized, whatever
    stands in front of the digit: [scan] gives up on it. *)
Theorem text_ending_in_digit_fails (pre : string) (c : ascii) :
  is_digit c = true ->
  exists e, scan (pre ++ str1 c) = Some (LexFail e).
Proof.
  intro Hd.
  destruct (scan_total (pre ++ str1 c)) as ([tokens'|e] & Hr); [|eauto].
  exfalso. unfold scan in Hr.
  destruct (scan_loop_last_no_digit _ _ 0 0 [] tokens'
              ltac:(rewrite length_snoc; lia) Hr) as (c' & Hc' & Hd').
  rewrite length_snoc in Hc'.
  replace (S (String.length pre) - 1) with (String.length pre) in Hc' by lia.
  unfold str1 in Hc'. rewrite get_first_after in Hc'. injection Hc' as <-.
  rewrite Hd in Hd'. discriminate.
Qed.

Lemma text_ending_in_digit_fails_witness :
  is_digit "7" = true
  /\ exists e, scan (("{" ++ quoted "a" ++ ": ") ++ str1 "7") = Some (LexFail e).
Proof.
  split; [reflexivity|].
  exact (text_ending_in_digit_fails ("{" ++ quoted "a" ++ ": ")%string "7"%char
                                    eq_refl).
Defined.
